(** * SimEngine: the discrete-event engine of the 6TiSCH simulator

    A shallow embedding of [SimEngine/SimEngine.py].  Python integers are
    [Z], Python floats are binary64 ([PrimFloat.float]), the event queue
    [self.events] is a [list Event] mutated by index, exceptions are an
    explicit result, and [run()] is a small-step machine over the program
    points of its loops. *)

From Stdlib Require Import ZArith List String Bool Lia Floats Sorted Permutation.
Import ListNotations.
Local Open Scope Z_scope.

(* ===================================================================== *)
(** * Python values used by the engine *)
(* ===================================================================== *)

(** Exceptions the modelled code can raise. *)
Inductive Exn : Type :=
| AssertionError
| TypeError
| IndexError
| ZeroDivisionError
| OverflowError
| ValueError
| AttributeError
| EnvironmentError.

Module PyFloat.

(** [float(n)] for a Python integer: round to nearest, ties to even;
    [OverflowError] when [n] is outside the range of a double. *)
Definition of_int (n : Z) : Exn + float :=
  let f := SF2Prim (SpecFloat.binary_normalize prec emax n 0 false) in
  if PrimFloat.is_infinity f then inl OverflowError else inr f.

(** [a / b] on floats: Python raises on a zero divisor. *)
Definition div (a b : float) : Exn + float :=
  if PrimFloat.eqb b PrimFloat.zero then inl ZeroDivisionError
  else inr (PrimFloat.div a b).

(** [int(f)]: truncation toward zero; [OverflowError] on an infinity and
    [ValueError] on a NaN. *)
Definition to_int (f : float) : Exn + Z :=
  match Prim2SF f with
  | SpecFloat.S754_zero _ => inr 0
  | SpecFloat.S754_infinity _ => inl OverflowError
  | SpecFloat.S754_nan => inl ValueError
  | SpecFloat.S754_finite s m e =>
      let v := if 0 <=? e then Z.shiftl (Z.pos m) e
               else Z.shiftr (Z.pos m) (- e) in
      inr (if s then - v else v)
  end.

(** The exact value of a finite double as a fraction [n / 2^k]. *)
Definition to_frac (f : float) : option (Z * Z) :=
  match Prim2SF f with
  | SpecFloat.S754_zero _ => Some (0, 1)
  | SpecFloat.S754_finite s m e =>
      let n := if s then Z.neg m else Z.pos m in
      Some (if 0 <=? e then (Z.shiftl n e, 1) else (n, Z.shiftl 1 (- e)))
  | _ => None
  end.

(** [floor (a / b)] of the exact quotient of two finite doubles. *)
Definition floor_quot (a b : float) : option Z :=
  match to_frac a, to_frac b with
  | Some (na, da), Some (nb, db) =>
      if nb =? 0 then None else Some ((na * db) / (nb * da))
  | _, _ => None
  end.

End PyFloat.

(* ===================================================================== *)
(** * Data model *)
(* ===================================================================== *)

(** First component of a [uniqueTag] pair: [None], a string such as
    ['SimEngine'], or a mote identifier. *)
Inductive Owner : Type :=
| ONone
| OStr (s : string)
| OInt (n : Z).

(** A [uniqueTag] is [None] or a pair [(owner, name)], as in
    [(None,'_actionEndSim')] and [('SimEngine','_actionPauseSim')]. *)
Definition Tag : Type := (Owner * string)%type.

(** Callables stored in the queue and in the hook lists: the engine's own
    bound methods, or a collaborator's callback, known by a number. *)
Inductive Callback : Type :=
| ActionEndSim
| ActionPauseSim
| UserCb (id : nat).

(** The argument bundle [kwargs]. *)
Definition Kwargs : Type := list (string * Z).

(** One entry of [self.events]: the tuple
    [(asn, priority, cb, uniqueTag, kwargs)]. *)
Record Event : Type := mkEvent {
  ev_asn : Z;
  ev_priority : Z;
  ev_cb : Callback;
  ev_tag : option Tag;
  ev_kwargs : Kwargs
}.

(** The part of [SimSettings] the engine reads. *)
Record SimSettings : Type := mkSettings {
  secjoin_enabled : bool;
  slotframeLength : Z;
  exec_numSlotframesPerRun : Z;
  slotDuration : float
}.

(** The instance attributes set by [__init__] (and [asnEndExperiment], set
    by [terminateSimulation]).  [pauseSem] is the counter of the semaphore;
    [dataLock] is reentrant and the model has one thread inside the engine
    at a time, so it is not represented. *)
Record SimEngine : Type := mkEngine {
  simPaused : bool;
  goOn : bool;
  asn : Z;
  startCb : list Callback;
  endCb : list Callback;
  events : list Event;
  pauseSem : nat;
  asnEndExperiment : option Z;
  settings : SimSettings
}.

Definition set_simPaused (b : bool) (e : SimEngine) : SimEngine :=
  mkEngine b (goOn e) (asn e) (startCb e) (endCb e) (events e)
           (pauseSem e) (asnEndExperiment e) (settings e).
Definition set_goOn (b : bool) (e : SimEngine) : SimEngine :=
  mkEngine (simPaused e) b (asn e) (startCb e) (endCb e) (events e)
           (pauseSem e) (asnEndExperiment e) (settings e).
Definition set_asn (a : Z) (e : SimEngine) : SimEngine :=
  mkEngine (simPaused e) (goOn e) a (startCb e) (endCb e) (events e)
           (pauseSem e) (asnEndExperiment e) (settings e).
Definition set_startCb (l : list Callback) (e : SimEngine) : SimEngine :=
  mkEngine (simPaused e) (goOn e) (asn e) l (endCb e) (events e)
           (pauseSem e) (asnEndExperiment e) (settings e).
Definition set_endCb (l : list Callback) (e : SimEngine) : SimEngine :=
  mkEngine (simPaused e) (goOn e) (asn e) (startCb e) l (events e)
           (pauseSem e) (asnEndExperiment e) (settings e).
Definition set_events (l : list Event) (e : SimEngine) : SimEngine :=
  mkEngine (simPaused e) (goOn e) (asn e) (startCb e) (endCb e) l
           (pauseSem e) (asnEndExperiment e) (settings e).
Definition set_pauseSem (n : nat) (e : SimEngine) : SimEngine :=
  mkEngine (simPaused e) (goOn e) (asn e) (startCb e) (endCb e) (events e)
           n (asnEndExperiment e) (settings e).
Definition set_asnEndExperiment (a : option Z) (e : SimEngine) : SimEngine :=
  mkEngine (simPaused e) (goOn e) (asn e) (startCb e) (endCb e) (events e)
           (pauseSem e) a (settings e).

(** The local variables of [__init__]. *)
Definition init_engine (s : SimSettings) : SimEngine :=
  mkEngine false true 0 [] [] [] 0%nat None s.

(** Result of a call: it returns, or an exception leaves it; either way
    the engine is as the call left it. *)
Inductive Res : Type :=
| Ok (e : SimEngine)
| Raise (x : Exn) (e : SimEngine).

Definition bind (r : Res) (k : SimEngine -> Res) : Res :=
  match r with
  | Ok e => k e
  | Raise x e => Raise x e
  end.

Definition res_engine (r : Res) : SimEngine :=
  match r with Ok e => e | Raise _ e => e end.

(** ** Equality of tags, Python's [==] *)

Definition owner_eqb (a b : Owner) : bool :=
  match a, b with
  | ONone, ONone => true
  | OStr s, OStr t => String.eqb s t
  | OInt n, OInt m => Z.eqb n m
  | _, _ => false
  end.

Definition tag_eqb (a b : option Tag) : bool :=
  match a, b with
  | None, None => true
  | Some (o1, n1), Some (o2, n2) => owner_eqb o1 o2 && String.eqb n1 n2
  | _, _ => false
  end.

(** Truth value of a tag in [if uniqueTag:]: [None] is false, a pair is a
    non-empty tuple and so true. *)
Definition truthy (t : option Tag) : bool :=
  match t with None => false | Some _ => true end.

(* ===================================================================== *)
(** * Scheduling *)
(* ===================================================================== *)

(** [self.events.pop(i)] for an index inside the list. *)
Definition pop (i : nat) (l : list Event) : list Event :=
  firstn i l ++ skipn (S i) l.

(** [self.events.insert(i, x)]. *)
Definition insert (i : nat) (x : Event) (l : list Event) : list Event :=
  firstn i l ++ x :: skipn i l.

(** The test of [removeEvent] on [self.events[i]]. *)
Definition removable (clock : Z) (uniqueTag : option Tag)
           (exceptCurrentASN : bool) (ev : Event) : bool :=
  tag_eqb (ev_tag ev) uniqueTag
  && negb (exceptCurrentASN && (ev_asn ev =? clock)).

(** The [while i<len(self.events)] loop of [removeEvent]: each turn pops
    index [i] or moves to [i+1], so [length l - i] turns suffice. *)
Fixpoint removeEvent_loop (turns : nat) (clock : Z) (uniqueTag : option Tag)
         (exceptCurrentASN : bool) (i : nat) (l : list Event) : list Event :=
  match turns with
  | O => l
  | S turns' =>
      match nth_error l i with
      | None => l
      | Some ev =>
          if removable clock uniqueTag exceptCurrentASN ev
          then removeEvent_loop turns' clock uniqueTag exceptCurrentASN i (pop i l)
          else removeEvent_loop turns' clock uniqueTag exceptCurrentASN (S i) l
      end
  end.

Definition removeEvent (e : SimEngine) (uniqueTag : option Tag)
           (exceptCurrentASN : bool) : SimEngine :=
  set_events
    (removeEvent_loop (List.length (events e)) (asn e) uniqueTag exceptCurrentASN
                      0%nat (events e))
    e.

(** The test of the index search of [scheduleAtAsn]: the entry at [i] is
    due before the new one, or at the same time with a priority not
    above it. *)
Definition goes_before (a priority : Z) (ev : Event) : bool :=
  (ev_asn ev <? a) || ((ev_asn ev =? a) && (ev_priority ev <=? priority)).

(** [i = 0; while i<len(self.events) and ...: i += 1], started at [i]. *)
Fixpoint find_index (a priority : Z) (i : nat) (l : list Event) : nat :=
  match l with
  | [] => i
  | ev :: rest =>
      if goes_before a priority ev then find_index a priority (S i) rest
      else i
  end.

Definition scheduleAtAsn (e : SimEngine) (a : Z) (cb : Callback)
           (uniqueTag : option Tag) (priority : Z) (exceptCurrentASN : bool)
           (kwargs : Kwargs) : Res :=
  if negb (a >? asn e) then Raise AssertionError e
  else
    let e1 := if truthy uniqueTag
              then removeEvent e uniqueTag exceptCurrentASN else e in
    let i := find_index a priority 0%nat (events e1) in
    Ok (set_events
          (insert i (mkEvent a priority cb uniqueTag kwargs) (events e1)) e1).

(** [asn = int(self.asn + (float(delay) / float(self.settings.slotDuration)))]
    where [delay] is the value of [float(delay)]. *)
Definition scheduleIn_asn (e : SimEngine) (delay : float) : Exn + Z :=
  match PyFloat.div delay (slotDuration (settings e)) with
  | inl x => inl x
  | inr q =>
      match PyFloat.of_int (asn e) with
      | inl x => inl x
      | inr c => PyFloat.to_int (PrimFloat.add c q)
      end
  end.

Definition scheduleIn (e : SimEngine) (delay : float) (cb : Callback)
           (uniqueTag : option Tag) (priority : Z) (exceptCurrentASN : bool)
           (kwargs : Kwargs) : Res :=
  match scheduleIn_asn e delay with
  | inl x => Raise x e
  | inr a => scheduleAtAsn e a cb uniqueTag priority exceptCurrentASN kwargs
  end.

Definition scheduleAtStart (e : SimEngine) (cb : Callback) : SimEngine :=
  set_startCb (startCb e ++ [cb]) e.

Definition scheduleAtEnd (e : SimEngine) (cb : Callback) : SimEngine :=
  set_endCb (endCb e ++ [cb]) e.

Definition tag_endSim : option Tag := Some (ONone, "_actionEndSim"%string).
Definition tag_pauseSim : option Tag := Some (OStr "SimEngine"%string, "_actionPauseSim"%string).

Definition terminateSimulation (e : SimEngine) (delay : Z) : Res :=
  let e1 := set_asnEndExperiment (Some (asn e + delay)) e in
  scheduleAtAsn e1 (asn e1 + delay) ActionEndSim tag_endSim 0 true [].

Definition pauseAtAsn (e : SimEngine) (a : Z) : Res :=
  if negb (simPaused e)
  then scheduleAtAsn e a ActionPauseSim tag_pauseSim 0 true []
  else Ok e.

Definition getAsn (e : SimEngine) : Z := asn e.

Definition _actionResumeSim (e : SimEngine) : SimEngine :=
  if simPaused e
  then set_pauseSem (S (pauseSem e)) (set_simPaused false e)
  else e.

Definition play (e : SimEngine) : SimEngine := _actionResumeSim e.

Definition _actionEndSim (e : SimEngine) : SimEngine := set_goOn false e.

(* ===================================================================== *)
(** * Callbacks *)
(* ===================================================================== *)

(** What a collaborator's callback does to the engine: calls of the
    public methods. *)
Inductive Action : Type :=
| DoScheduleAtAsn (a : Z) (cb : Callback) (uniqueTag : option Tag)
                  (priority : Z) (exceptCurrentASN : bool) (kwargs : Kwargs)
| DoScheduleIn (delay : float) (cb : Callback) (uniqueTag : option Tag)
               (priority : Z) (exceptCurrentASN : bool) (kwargs : Kwargs)
| DoRemoveEvent (uniqueTag : option Tag) (exceptCurrentASN : bool)
| DoScheduleAtStart (cb : Callback)
| DoScheduleAtEnd (cb : Callback)
| DoTerminateSimulation (delay : Z)
| DoPauseAtAsn (a : Z)
| DoPlay.

Definition do_action (e : SimEngine) (act : Action) : Res :=
  match act with
  | DoScheduleAtAsn a cb t p x kw => scheduleAtAsn e a cb t p x kw
  | DoScheduleIn d cb t p x kw => scheduleIn e d cb t p x kw
  | DoRemoveEvent t x => Ok (removeEvent e t x)
  | DoScheduleAtStart cb => Ok (scheduleAtStart e cb)
  | DoScheduleAtEnd cb => Ok (scheduleAtEnd e cb)
  | DoTerminateSimulation d => terminateSimulation e d
  | DoPauseAtAsn a => pauseAtAsn e a
  | DoPlay => Ok (play e)
  end.

(** The calls of a callback body in sequence; an exception is not caught
    and ends the body. *)
Fixpoint do_actions (e : SimEngine) (acts : list Action) : Res :=
  match acts with
  | [] => Ok e
  | act :: rest => bind (do_action e act) (fun e' => do_actions e' rest)
  end.

(** The body of collaborator callback [id], called with [kwargs] on the
    engine as it is then. *)
Definition Behaviour : Type := nat -> Kwargs -> SimEngine -> list Action.

(** How the call of [cb] with [kwargs] ends: it returns, raises, or reaches
    [self.pauseSem.acquire()]. *)
Inductive Invoked : Type :=
| Returned (e : SimEngine)
| Failed (x : Exn) (e : SimEngine)
| Acquire (e : SimEngine).

(** The engine's own methods take no keyword argument. *)
Definition no_kwargs (kw : Kwargs) : bool :=
  match kw with [] => true | _ => false end.

Definition invoke (beh : Behaviour) (cb : Callback) (kw : Kwargs)
           (e : SimEngine) : Invoked :=
  match cb with
  | ActionEndSim =>
      if no_kwargs kw then Returned (_actionEndSim e) else Failed TypeError e
  | ActionPauseSim =>
      if no_kwargs kw
      then if negb (simPaused e) then Acquire (set_simPaused true e)
           else Returned e
      else Failed TypeError e
  | UserCb id =>
      match do_actions e (beh id kw e) with
      | Ok e' => Returned e'
      | Raise x e' => Failed x e'
      end
  end.

(* ===================================================================== *)
(** * The thread: [run()] *)
(* ===================================================================== *)

(** Program points of [run()]: the [for] over [self.startCb] at index [i],
    the head of [while self.goOn], the head of [while True], the wait on
    [self.pauseSem] (then on to [k]), the [for] over [self.endCb]. *)
Inductive Loc : Type :=
| AtStart (i : nat)
| AtLoop
| AtBatch
| AtGate (k : Loc)
| AtEnd (i : nat).

(** A call made by [run()]: a start hook, an event's callback with the
    value of [self.asn] at the call, an end hook. *)
Inductive Call : Type :=
| CallStart (cb : Callback)
| CallEvent (clock : Z) (ev : Event)
| CallEnd (cb : Callback).

(** How an execution of [run()] stands: it returned, an exception left
    it, it waits on the semaphore, or the model's fuel ran out. *)
Inductive Exit : Type :=
| Finished
| Raised (x : Exn)
| Waiting (k : Loc)
| OutOfFuel (k : Loc).

Inductive Step : Type :=
| Next (k : Loc) (e : SimEngine)
| Stop (x : Exit) (e : SimEngine).

Definition after_call (k : Loc) (r : Invoked) : Step :=
  match r with
  | Returned e => Next k e
  | Failed x e => Stop (Raised x) e
  | Acquire e => Next (AtGate k) e
  end.

(** The pause-sentinel test [c[1] != '_actionPauseSim'] on a pair. *)
Definition is_pause_name (name : string) : bool :=
  String.eqb name "_actionPauseSim"%string.

Definition step (beh : Behaviour) (k : Loc) (e : SimEngine)
  : list Call * Step :=
  match k with
  | AtStart i =>
      match nth_error (startCb e) i with
      | None => ([], Next AtLoop e)
      | Some cb => ([CallStart cb], after_call (AtStart (S i)) (invoke beh cb [] e))
      end
  | AtLoop =>
      if negb (goOn e) then ([], Next (AtEnd 0) e)
      else
        match events e with
        | [] => ([], Next (AtEnd 0) e)
        | ev :: _ =>
            match ev_tag ev with
            | None => ([], Stop (Raised TypeError) e)
            | Some (_, name) =>
                if negb (is_pause_name name) && negb (ev_asn ev >=? asn e)
                then ([], Stop (Raised AssertionError) e)
                else ([], Next AtBatch (set_asn (ev_asn ev) e))
            end
        end
  | AtBatch =>
      match events e with
      | [] => ([], Stop (Raised IndexError) e)
      | ev :: rest =>
          if negb (ev_asn ev =? asn e) then ([], Next AtLoop e)
          else ([CallEvent (asn e) ev],
                after_call AtBatch
                  (invoke beh (ev_cb ev) (ev_kwargs ev) (set_events rest e)))
      end
  | AtGate k' =>
      match pauseSem e with
      | O => ([], Stop (Waiting (AtGate k')) e)
      | S n => ([], Next k' (set_pauseSem n e))
      end
  | AtEnd i =>
      match nth_error (endCb e) i with
      | None => ([], Stop Finished e)
      | Some cb => ([CallEnd cb], after_call (AtEnd (S i)) (invoke beh cb [] e))
      end
  end.

(** An execution: the calls made, in order, how it stands, and the
    engine then. *)
Record Trace : Type := mkTrace {
  calls : list Call;
  exit : Exit;
  final : SimEngine
}.

Definition prepend (c : list Call) (t : Trace) : Trace :=
  mkTrace (c ++ calls t) (exit t) (final t).

Fixpoint exec (beh : Behaviour) (fuel : nat) (k : Loc) (e : SimEngine)
  : Trace :=
  match fuel with
  | O => mkTrace [] (OutOfFuel k) e
  | S fuel' =>
      match step beh k e with
      | (c, Next k' e') => prepend c (exec beh fuel' k' e')
      | (c, Stop x e') => mkTrace c x e'
      end
  end.

(** [run()]: the end-of-simulation event unless the join process is
    simulated, then the hooks and the loops. *)
Definition run (beh : Behaviour) (fuel : nat) (e : SimEngine) : Trace :=
  let r :=
    if negb (secjoin_enabled (settings e))
    then scheduleAtAsn e
           (slotframeLength (settings e) * exec_numSlotframesPerRun (settings e))
           ActionEndSim tag_endSim 0 true []
    else Ok e in
  match r with
  | Ok e' => exec beh fuel (AtStart 0) e'
  | Raise x e' => mkTrace [] (Raised x) e'
  end.

(** A controller thread resumes a run that waits on the semaphore. *)
Definition resume (beh : Behaviour) (fuel : nat) (t : Trace) : Trace :=
  match exit t with
  | Waiting k => prepend (calls t) (exec beh fuel k (play (final t)))
  | _ => t
  end.

(** The events among the calls, with the clock at each. *)
Fixpoint dispatched (cs : list Call) : list (Z * Event) :=
  match cs with
  | [] => []
  | CallEvent c ev :: rest => (c, ev) :: dispatched rest
  | _ :: rest => dispatched rest
  end.

Fixpoint end_hooks (cs : list Call) : list Callback :=
  match cs with
  | [] => []
  | CallEnd cb :: rest => cb :: end_hooks rest
  | _ :: rest => end_hooks rest
  end.

(* ===================================================================== *)
(** * The singleton: [__new__], [__init__], [destroy] *)
(* ===================================================================== *)

Module Singleton.

(** An object is known by its index in the heap. *)
Definition Ref : Type := nat.

(** The [__dict__] of an instance: the attributes [_instance] and
    [_init] when an assignment through [self] created them, and the
    attributes set by [__init__]. *)
Record Instance : Type := mkInstance {
  i_instance : option (option Ref);
  i_init : option bool;
  i_engine : option SimEngine
}.

Definition empty_dict : Instance := mkInstance None None None.

(** The class attributes [SimEngine._instance] and [SimEngine._init],
    the objects, and whether the [Propagation] singleton is alive. *)
Record Process : Type := mkProcess {
  cls_instance : option Ref;
  cls_init : bool;
  heap : list Instance;
  propagation : bool
}.

Definition boot_process : Process := mkProcess None false [] false.

Definition get (p : Process) (r : Ref) : Instance :=
  nth r (heap p) empty_dict.

Fixpoint update (r : nat) (o : Instance) (h : list Instance) : list Instance :=
  match h, r with
  | [], _ => []
  | _ :: t, O => o :: t
  | x :: t, S r' => x :: update r' o t
  end.

Definition put (p : Process) (r : Ref) (o : Instance) : Process :=
  mkProcess (cls_instance p) (cls_init p) (update r o (heap p)) (propagation p).

(** Reading [self._init]: the instance's attribute, else the class's. *)
Definition read_init (p : Process) (r : Ref) : bool :=
  match i_init (get p r) with
  | Some b => b
  | None => cls_init p
  end.

(** [__new__]: [if not cls._instance: cls._instance = <new object>]. *)
Definition new (p : Process) : Process * Ref :=
  match cls_instance p with
  | Some r => (p, r)
  | None =>
      let r := List.length (heap p) in
      (mkProcess (Some r) (cls_init p) (heap p ++ [empty_dict]) (propagation p), r)
  end.

(** [__init__]; [boot] stands for the scheduling calls the motes make
    from [boot()], [s] for the settings singleton. *)
Definition init (s : SimSettings) (boot : list Action) (p : Process)
           (r : Ref) (failIfNotInit : bool) : option Exn * Process :=
  if failIfNotInit && negb (read_init p r) then (Some EnvironmentError, p)
  else if read_init p r then (None, p)
  else
    let o := get p r in
    let created (e : SimEngine) :=
      mkProcess (cls_instance p) (cls_init p)
                (update r (mkInstance (i_instance o) (Some true) (Some e)) (heap p))
                true in
    match do_actions (init_engine s) boot with
    | Ok e => (None, created e)
    | Raise x e => (Some x, created e)
    end.

(** The call [SimEngine(failIfNotInit=...)]. *)
Definition construct (s : SimSettings) (boot : list Action) (p : Process)
           (failIfNotInit : bool) : option Exn * Process * Ref :=
  let (p1, r) := new p in
  (init s boot p1 r failIfNotInit, r).

(** [destroy]: the three statements after [self.propagation.destroy()]
    act on the instance's own dictionary. *)
Definition destroy (p : Process) (r : Ref) : option Exn * Process :=
  match i_engine (get p r) with
  | None => (Some AttributeError, p)
  | Some e =>
      let p1 := mkProcess (cls_instance p) (cls_init p) (heap p) false in
      let p2 := put p1 r (mkInstance (Some None) (i_init (get p1 r)) (Some e)) in
      let p3 := put p2 r (mkInstance (i_instance (get p2 r)) (Some false) (Some e)) in
      (None, put p3 r empty_dict)
  end.

(** The engine a reference denotes, when it is initialised. *)
Definition engine_of (p : Process) (r : Ref) : option SimEngine :=
  i_engine (get p r).

End Singleton.

(* ===================================================================== *)
(** * Vocabulary of the properties *)
(* ===================================================================== *)

(** The ordering key of the queue: time, then priority. *)
Definition key_le (x y : Event) : Prop :=
  ev_asn x < ev_asn y \/ (ev_asn x = ev_asn y /\ ev_priority x <= ev_priority y).

Definition sorted_queue (l : list Event) : Prop := StronglySorted key_le l.

(** Where the search of [scheduleAtAsn] puts a new event, as a function of
    the list. *)
Fixpoint insert_sorted (x : Event) (l : list Event) : list Event :=
  match l with
  | [] => [x]
  | ev :: rest =>
      if goes_before (ev_asn x) (ev_priority x) ev
      then ev :: insert_sorted x rest
      else x :: ev :: rest
  end.

(** A sequence of calls of the public methods, each by its own caller: an
    exception goes to that caller and the next call finds the engine as the
    failed one left it. *)
Definition apply_calls (e : SimEngine) (acts : list Action) : SimEngine :=
  fold_left (fun e' act => res_engine (do_action e' act)) acts e.

(** The event a call inserts when it succeeds. *)
Definition scheduled_event (e : SimEngine) (act : Action) : option Event :=
  match act with
  | DoScheduleAtAsn a cb t p _ kw => Some (mkEvent a p cb t kw)
  | DoScheduleIn d cb t p _ kw =>
      match scheduleIn_asn e d with
      | inr a => Some (mkEvent a p cb t kw)
      | inl _ => None
      end
  | DoTerminateSimulation d => Some (mkEvent (asn e + d) 0 ActionEndSim tag_endSim [])
  | DoPauseAtAsn a =>
      if simPaused e then None
      else Some (mkEvent a 0 ActionPauseSim tag_pauseSim [])
  | _ => None
  end.

(** The queue at the head of [while True]: sorted, nothing due before the
    clock. *)
Definition inv_ge (e : SimEngine) : Prop :=
  sorted_queue (events e) /\ Forall (fun ev => asn e <= ev_asn ev) (events e).

(** The queue elsewhere: sorted, everything due after the clock. *)
Definition inv_gt (e : SimEngine) : Prop :=
  sorted_queue (events e) /\ Forall (fun ev => asn e < ev_asn ev) (events e).

Fixpoint wf (k : Loc) (e : SimEngine) : Prop :=
  match k with
  | AtBatch => inv_ge e
  | AtGate k' => wf k' e
  | _ => inv_gt e
  end.

(** A callback that leaves the engine alone. *)
Definition inert (beh : Behaviour) (cb : Callback) : Prop :=
  exists id, cb = UserCb id /\ forall kw e, beh id kw e = [].

(** The engine as a call of a callback left it. *)
Definition invoked_engine (r : Invoked) : SimEngine :=
  match r with
  | Returned e => e
  | Failed _ e => e
  | Acquire e => e
  end.

(** The engine after one step of [run()]. *)
Definition step_engine (s : Step) : SimEngine :=
  match s with
  | Next _ e => e
  | Stop _ e => e
  end.

(** The program points inside [while True]. *)
Fixpoint in_batch (k : Loc) : bool :=
  match k with
  | AtBatch => true
  | AtGate k' => in_batch k'
  | _ => false
  end.

(** Dispatches in time order from clock [lo] on: each event is called
    with the clock at its own time, and the clock never goes back. *)
Definition well_timed (lo : Z) (l : list (Z * Event)) : Prop :=
  StronglySorted (fun a b => fst a <= fst b) l
  /\ Forall (fun ce => fst ce = ev_asn (snd ce) /\ lo <= fst ce) l.


(** ** Sample data: settings with a slot of 10 ms (the double nearest to
    0.01), a fresh engine, a mote's tag. *)
Definition sample_settings : SimSettings :=
  mkSettings true 101 100 0x1.47ae147ae147bp-7%float.

Definition fresh : SimEngine := init_engine sample_settings.

Definition mote_tag (mote : Z) (name : string) : option Tag :=
  Some (OInt mote, name).

(** Collaborators whose callbacks do nothing. *)
Definition idle : Behaviour := fun _ _ _ => [].

(** A queue as the list of dispatches it stands for: each event at its
    own time. *)
Definition in_queue_order (q : list Event) : list (Z * Event) :=
  map (fun ev => (ev_asn ev, ev)) q.





(** An engine in the batch of time 5: mote 1 has an event due now and one
    due at 9, and an untagged event is pending. *)
Definition busy : SimEngine :=
  set_events
    [ mkEvent 5 0 (UserCb 1) (mote_tag 1 "app") [];
      mkEvent 9 0 (UserCb 2) (mote_tag 1 "app") [];
      mkEvent 9 1 (UserCb 3) None [] ]
    (set_asn 5 fresh).

(** Collaborators whose callback 1 schedules callback 9 at the current
    clock, as read by [getAsn()]. *)
Definition beh_now : Behaviour :=
  fun id _ e =>
    match id with
    | 1%nat => [DoScheduleAtAsn (getAsn e) (UserCb 9) (mote_tag 9 "now") 0 true []]
    | _ => []
    end.

(** Collaborators whose callback 1 cancels the events of mote 1, those due
    now included. *)
Definition beh_cancel : Behaviour :=
  fun id _ _ =>
    match id with
    | 1%nat => [DoRemoveEvent (mote_tag 1 "app") false]
    | _ => []
    end.

(** A fresh engine with an event at 5 and one at 7. *)
Definition two_batches : SimEngine :=
  set_events
    [ mkEvent 5 0 (UserCb 1) (mote_tag 1 "app") [];
      mkEvent 7 0 (UserCb 2) (mote_tag 2 "app") [] ]
    fresh.

(** A fresh engine with one event, at 3, and an end hook. *)
Definition last_event : SimEngine :=
  scheduleAtEnd
    (set_events [mkEvent 3 0 (UserCb 1) (mote_tag 1 "app") []] fresh)
    (UserCb 8).

(** A fresh engine of a run of one slotframe of 4 slots that does not
    simulate the join process, with an end hook. *)
Definition short_run : SimEngine :=
  scheduleAtEnd
    (init_engine (mkSettings false 4 1 0x1.47ae147ae147bp-7%float))
    (UserCb 8).

(** The pause sentinel scheduled by [pauseAtAsn(a)]. *)
Definition pause_sentinel (a : Z) : Event :=
  mkEvent a 0 ActionPauseSim tag_pauseSim [].

(** A fresh engine on which [pauseAtAsn(5)] has been called. *)
Definition pause_pending : SimEngine := res_engine (pauseAtAsn fresh 5).

(** The same engine once the clock is 5, the sentinel not yet called. *)
Definition pause_due : SimEngine := set_asn 5 pause_pending.



(** The process after the first [SimEngine()] on a fresh interpreter, with
    motes that schedule nothing when they boot. *)
Definition first_process : Singleton.Process :=
  snd (fst (Singleton.construct sample_settings [] Singleton.boot_process false)).

(** The claim's formula for [scheduleIn]: the clock plus the floor of the
    exact quotient of the delay by the slot duration. *)
Definition spec_scheduleIn_asn (e : SimEngine) (delay : float) : option Z :=
  match PyFloat.floor_quot delay (slotDuration (settings e)) with
  | Some q => Some (asn e + q)
  | None => None
  end.

(** A delay of 290 ms (the double nearest to 0.29), and the sample engine
    with the clock at 100. *)
Definition delay_290ms : float := 0x1.28f5c28f5c28fp-2%float.

Definition at_100 : SimEngine := set_asn 100 fresh.

(** The largest double below 3, a slot of one second, the clock at 100. *)
Definition below_three : float := 0x1.7ffffffffffffp+1%float.

Definition one_second_slots : SimEngine :=
  set_asn 100 (init_engine (mkSettings true 101 100 1%float)).

(** The example of the design notes: events (5,0), (5,1) and (3,0)
    scheduled in this order on a fresh engine, and one at 20 that keeps
    the queue from running empty. *)
Definition spec_example : SimEngine :=
  apply_calls fresh
    [ DoScheduleAtAsn 5 (UserCb 1) (mote_tag 1 "app") 0 true [];
      DoScheduleAtAsn 5 (UserCb 2) (mote_tag 2 "app") 1 true [];
      DoScheduleAtAsn 3 (UserCb 3) (mote_tag 3 "app") 0 true [];
      DoScheduleAtAsn 20 (UserCb 4) (mote_tag 4 "app") 0 true [] ].

(** The same engine with a pause asked for at 5. *)
Definition spec_example_paused : SimEngine :=
  res_engine (pauseAtAsn spec_example 5).

(** A fresh engine with two start hooks, two end hooks and an event. *)
Definition hooked : SimEngine :=
  apply_calls fresh
    [ DoScheduleAtStart (UserCb 1); DoScheduleAtStart (UserCb 2);
      DoScheduleAtEnd (UserCb 3); DoScheduleAtEnd (UserCb 4);
      DoScheduleAtAsn 5 (UserCb 5) (mote_tag 5 "app") 0 true [] ].

(** The same engine once the loop has been told to stop. *)
Definition hooked_stopped : SimEngine := _actionEndSim hooked.

(** The end time of a run that does not simulate the join process. *)
Definition end_of_simulation (e : SimEngine) : Z :=
  slotframeLength (settings e) * exec_numSlotframesPerRun (settings e).

(** An engine of a run of 4 slots with events at 2, 4 and 6. *)
Definition beyond_the_end : SimEngine :=
  apply_calls (init_engine (mkSettings false 4 1 0x1.47ae147ae147bp-7%float))
    [ DoScheduleAtAsn 2 (UserCb 1) (mote_tag 1 "app") 0 true [];
      DoScheduleAtAsn 4 (UserCb 2) (mote_tag 2 "app") 0 true [];
      DoScheduleAtAsn 6 (UserCb 3) (mote_tag 3 "app") 0 true [] ].

(** Collaborators whose callback 1, used as a start hook, registers
    callback 2 as a start hook. *)
Definition beh_hook : Behaviour :=
  fun id _ _ =>
    match id with
    | 1%nat => [DoScheduleAtStart (UserCb 2)]
    | _ => []
    end.

(** A fresh engine with callback 1 as its only start hook. *)
Definition one_start_hook : SimEngine := scheduleAtStart fresh (UserCb 1).

(** A fresh engine of a run of no slotframe that does not simulate the
    join process. *)
Definition no_slotframe : SimEngine :=
  init_engine (mkSettings false 101 0 0x1.47ae147ae147bp-7%float).

(** Nobody is paused and the semaphore holds no permit. *)
Definition gate_idle (e : SimEngine) : Prop :=
  simPaused e = false /\ pauseSem e = 0%nat.

(** The run stands at the wait on the semaphore. *)
Definition at_gate (k : Loc) : bool :=
  match k with AtGate _ => true | _ => false end.

(** What an execution shows of the pause: the flag is set exactly when the
    run stands at the semaphore. *)
Definition paused_iff_waiting (t : Trace) : Prop :=
  match exit t with
  | Waiting _ => simPaused (final t) = true
  | OutOfFuel (AtGate _) => simPaused (final t) = true
  | _ => simPaused (final t) = false
  end.

(** ** The queue with the number of the call that scheduled each event

    The order of scheduling is not stored by the code.  To state it, each
    entry of the queue is paired with the number of the call that put it
    there, and the pairs follow the code's own moves: a removal drops the
    entries whose event [removeEvent] pops, an insertion puts the new pair
    at the index the search of [scheduleAtAsn] finds on the queue. *)
Definition Entry : Type := (nat * Event)%type.

(** The full ordering key: time, priority, then number of the call. *)
Definition entry_lt (s1 s2 : Entry) : Prop :=
  ev_asn (snd s1) < ev_asn (snd s2)
  \/ (ev_asn (snd s1) = ev_asn (snd s2)
      /\ (ev_priority (snd s1) < ev_priority (snd s2)
          \/ (ev_priority (snd s1) = ev_priority (snd s2)
              /\ (fst s1 < fst s2)%nat))).

(** [exceptCurrentASN] as a call hands it to [scheduleAtAsn]:
    [terminateSimulation] and [pauseAtAsn] leave the default, true. *)
Definition except_flag (act : Action) : bool :=
  match act with
  | DoScheduleAtAsn _ _ _ _ x _ => x
  | DoScheduleIn _ _ _ _ x _ => x
  | _ => true
  end.

Definition numbered_remove (clock : Z) (t : option Tag) (x : bool)
           (q : list Entry) : list Entry :=
  filter (fun s => negb (removable clock t x (snd s))) q.

Definition numbered_insert (n : nat) (ev : Event) (q : list Entry) : list Entry :=
  let i := find_index (ev_asn ev) (ev_priority ev) 0%nat (map snd q) in
  firstn i q ++ (n, ev) :: skipn i q.

(** The numbered queue after call number [n]; a call that raises leaves
    it as it was. *)
Definition numbered_call (n : nat) (e : SimEngine) (q : list Entry)
           (act : Action) : list Entry :=
  match do_action e act with
  | Raise _ _ => q
  | Ok _ =>
      match act with
      | DoRemoveEvent t x => numbered_remove (asn e) t x q
      | _ =>
          match scheduled_event e act with
          | Some ev =>
              numbered_insert n ev
                (if truthy (ev_tag ev)
                 then numbered_remove (asn e) (ev_tag ev) (except_flag act) q
                 else q)
          | None => q
          end
      end
  end.

Fixpoint numbered_calls (n : nat) (e : SimEngine) (q : list Entry)
         (acts : list Action) : list Entry :=
  match acts with
  | [] => q
  | act :: rest =>
      numbered_calls (S n) (res_engine (do_action e act))
                     (numbered_call n e q act) rest
  end.

(** Calls that schedule the same event again: A, B, then A once more, all
    at time 5 with priority 0; then the same event without a tag, twice. *)
Definition resched_calls : list Action :=
  [ DoScheduleAtAsn 5 (UserCb 1) (mote_tag 1 "app") 0 true [];
    DoScheduleAtAsn 5 (UserCb 2) (mote_tag 2 "app") 0 true [];
    DoScheduleAtAsn 5 (UserCb 1) (mote_tag 1 "app") 0 true [];
    DoScheduleAtAsn 5 (UserCb 3) None 0 true [];
    DoScheduleAtAsn 5 (UserCb 3) None 0 true [] ].




(** ** [scheduleAtAsn] called from another thread

    The assertion of [scheduleAtAsn] is made before any lock is taken; the
    removal and the insertion take [dataLock], which [run()] holds during a
    whole turn of [while self.goOn].  A call from a controller thread is
    therefore two moves, between which the loop can make turns. *)
Definition scheduleAtAsn_assert (e : SimEngine) (a : Z) : bool := a >? asn e.

Definition scheduleAtAsn_locked (e : SimEngine) (a : Z) (cb : Callback)
           (uniqueTag : option Tag) (priority : Z) (exceptCurrentASN : bool)
           (kwargs : Kwargs) : SimEngine :=
  let e1 := if truthy uniqueTag
            then removeEvent e uniqueTag exceptCurrentASN else e in
  let i := find_index a priority 0%nat (events e1) in
  set_events (insert i (mkEvent a priority cb uniqueTag kwargs) (events e1)) e1.

(** A fresh engine with events at 7 and 20, and the engine the loop leaves
    after the turn of time 7. *)
Definition before_turn : SimEngine :=
  apply_calls fresh
    [ DoScheduleAtAsn 7 (UserCb 1) (mote_tag 1 "app") 0 true [];
      DoScheduleAtAsn 20 (UserCb 2) (mote_tag 2 "app") 0 true [] ].

Definition after_turn : SimEngine := final (exec idle 4 (AtStart 0) before_turn).

(** The run of [beyond_the_end] stopped where the end-of-simulation event
    heads the batch of time 4. *)
Definition end_due : SimEngine := final (run idle 6 beyond_the_end).

(* ===================================================================== *)
(** * The queue operations as list functions *)
(* ===================================================================== *)

Lemma nth_error_split_at (l : list Event) (i : nat) (ev : Event) :
  nth_error l i = Some ev ->
  l = firstn i l ++ ev :: skipn (S i) l /\ List.length (firstn i l) = i.
Proof.
  revert i; induction l as [|x l IH]; intros [|i] H; simpl in *; try discriminate.
  - inversion H; subst; auto.
  - destruct (IH i H) as [E L]. rewrite <- E, L. auto.
Qed.

Lemma firstn_skipn_pop (l : list Event) (i : nat) (ev : Event) :
  nth_error l i = Some ev ->
  firstn i (pop i l) = firstn i l /\ skipn i (pop i l) = skipn (S i) l.
Proof.
  intros H. destruct (nth_error_split_at l i ev H) as [_ L]. unfold pop.
  split.
  - rewrite firstn_app, L, Nat.sub_diag, firstn_O, app_nil_r.
    rewrite <- L at 1. apply firstn_all.
  - rewrite skipn_app, L, Nat.sub_diag. simpl.
    rewrite <- L at 1. rewrite skipn_all. reflexivity.
Qed.

Lemma firstn_succ_snoc (l : list Event) (i : nat) (ev : Event) :
  nth_error l i = Some ev -> firstn (S i) l = firstn i l ++ [ev].
Proof.
  revert i; induction l as [|x l IH]; intros [|i] H; simpl in *; try discriminate.
  - inversion H; reflexivity.
  - f_equal. apply IH, H.
Qed.

Lemma skipn_at (l : list Event) (i : nat) (ev : Event) :
  nth_error l i = Some ev -> skipn i l = ev :: skipn (S i) l.
Proof.
  revert i; induction l as [|x l IH]; intros [|i] H; simpl in *; try discriminate.
  - inversion H; reflexivity.
  - apply IH, H.
Qed.

(** The loop of [removeEvent] keeps what lies before [i] and filters the
    rest. *)
Lemma removeEvent_loop_filter (turns : nat) (clock : Z) (t : option Tag)
      (x : bool) :
  forall (i : nat) (l : list Event),
    (List.length l - i <= turns)%nat ->
    removeEvent_loop turns clock t x i l
    = firstn i l ++ filter (fun ev => negb (removable clock t x ev)) (skipn i l).
Proof.
  induction turns as [|turns IH]; intros i l Hlen; simpl.
  - assert (Hi : (List.length l <= i)%nat) by lia.
    rewrite firstn_all2, skipn_all2 by exact Hi. simpl. now rewrite app_nil_r.
  - destruct (nth_error l i) as [ev|] eqn:Hn.
    + assert (Hlt : (i < List.length l)%nat) by (apply nth_error_Some; congruence).
      destruct (removable clock t x ev) eqn:Hr.
      * destruct (firstn_skipn_pop l i ev Hn) as [F S'].
        rewrite IH, F, S'.
        -- rewrite (skipn_at l i ev Hn). simpl. now rewrite Hr.
        -- unfold pop. rewrite length_app, length_firstn, length_skipn. lia.
      * rewrite IH by lia.
        rewrite (firstn_succ_snoc l i ev Hn), (skipn_at l i ev Hn).
        simpl. rewrite Hr. simpl. now rewrite <- app_assoc.
    + apply nth_error_None in Hn.
      rewrite firstn_all2, skipn_all2 by exact Hn. simpl. now rewrite app_nil_r.
Qed.

Lemma events_removeEvent (e : SimEngine) (t : option Tag) (x : bool) :
  events (removeEvent e t x)
  = filter (fun ev => negb (removable (asn e) t x ev)) (events e).
Proof.
  unfold removeEvent. simpl.
  rewrite removeEvent_loop_filter by lia. reflexivity.
Qed.

Lemma asn_removeEvent (e : SimEngine) (t : option Tag) (x : bool) :
  asn (removeEvent e t x) = asn e.
Proof. reflexivity. Qed.

(** The index search followed by [insert] is [insert_sorted]. *)
Lemma insert_find_index (x : Event) (l : list Event) :
  forall (pre : list Event),
    insert (find_index (ev_asn x) (ev_priority x) (List.length pre) l) x (pre ++ l)
    = pre ++ insert_sorted x l.
Proof.
  induction l as [|ev l IH]; intros pre; simpl.
  - unfold insert. rewrite app_nil_r, firstn_all, skipn_all. reflexivity.
  - destruct (goes_before (ev_asn x) (ev_priority x) ev).
    + specialize (IH (pre ++ [ev])).
      rewrite length_app in IH. simpl in IH.
      rewrite Nat.add_1_r, <- !app_assoc in IH. simpl in IH. exact IH.
    + unfold insert. rewrite firstn_app, Nat.sub_diag, firstn_all.
      rewrite skipn_app, Nat.sub_diag, skipn_all. simpl.
      now rewrite app_nil_r.
Qed.

(** What a successful [scheduleAtAsn] leaves in the queue. *)
Lemma scheduleAtAsn_events (e : SimEngine) (a : Z) (cb : Callback)
      (t : option Tag) (p : Z) (x : bool) (kw : Kwargs) :
  a > asn e ->
  scheduleAtAsn e a cb t p x kw
  = let e1 := if truthy t then removeEvent e t x else e in
    Ok (set_events (insert_sorted (mkEvent a p cb t kw) (events e1)) e1).
Proof.
  intros Ha. unfold scheduleAtAsn.
  assert (E : (a >? asn e) = true) by (rewrite Z.gtb_ltb; apply Z.ltb_lt; lia).
  rewrite E. simpl. do 2 f_equal.
  apply (insert_find_index (mkEvent a p cb t kw) _ []).
Qed.

Lemma scheduleAtAsn_fails (e : SimEngine) (a : Z) (cb : Callback)
      (t : option Tag) (p : Z) (x : bool) (kw : Kwargs) :
  a <= asn e -> scheduleAtAsn e a cb t p x kw = Raise AssertionError e.
Proof.
  intros Ha. unfold scheduleAtAsn.
  assert (E : (a >? asn e) = false) by (rewrite Z.gtb_ltb; apply Z.ltb_ge; lia).
  now rewrite E.
Qed.

Lemma scheduleAtAsn_ok (e e' : SimEngine) (a : Z) (cb : Callback)
      (t : option Tag) (p : Z) (x : bool) (kw : Kwargs) :
  scheduleAtAsn e a cb t p x kw = Ok e' ->
  a > asn e
  /\ e' = set_events
            (insert_sorted (mkEvent a p cb t kw)
               (if truthy t
                then filter (fun ev => negb (removable (asn e) t x ev)) (events e)
                else events e))
            e.
Proof.
  intros H. destruct (Z_le_gt_dec a (asn e)) as [Hle|Hgt].
  - rewrite scheduleAtAsn_fails in H by exact Hle. discriminate.
  - split; [exact Hgt|].
    rewrite scheduleAtAsn_events in H by exact Hgt. simpl in H.
    inversion H; subst; clear H.
    destruct (truthy t); [|reflexivity].
    rewrite events_removeEvent. reflexivity.
Qed.

Lemma scheduleAtAsn_raise (e e' : SimEngine) (a : Z) (cb : Callback)
      (t : option Tag) (p : Z) (x : bool) (kw : Kwargs) (err : Exn) :
  scheduleAtAsn e a cb t p x kw = Raise err e' ->
  a <= asn e /\ err = AssertionError /\ e' = e.
Proof.
  intros H. destruct (Z_le_gt_dec a (asn e)) as [Hle|Hgt].
  - rewrite scheduleAtAsn_fails in H by exact Hle. inversion H; subst; auto.
  - rewrite scheduleAtAsn_events in H by exact Hgt. discriminate.
Qed.

Lemma In_insert_sorted (x y : Event) (l : list Event) :
  In y (insert_sorted x l) <-> y = x \/ In y l.
Proof.
  induction l as [|ev l IH]; simpl.
  - intuition.
  - destruct (goes_before (ev_asn x) (ev_priority x) ev); simpl.
    + rewrite IH. intuition.
    + intuition.
Qed.

Lemma insert_sorted_split (x : Event) (l : list Event) :
  exists l1 l2,
    l = l1 ++ l2 /\ insert_sorted x l = l1 ++ x :: l2
    /\ Forall (fun ev => goes_before (ev_asn x) (ev_priority x) ev = true) l1
    /\ (forall ev rest, l2 = ev :: rest ->
                        goes_before (ev_asn x) (ev_priority x) ev = false).
Proof.
  induction l as [|ev l IH]; simpl.
  - exists [], []. repeat split; auto. intros; discriminate.
  - destruct (goes_before (ev_asn x) (ev_priority x) ev) eqn:G.
    + destruct IH as (l1 & l2 & E & I & F & N).
      exists (ev :: l1), l2. subst l. simpl. rewrite I.
      repeat split; auto.
    + exists [], (ev :: l). repeat split; auto.
      intros ev' rest E. inversion E; subst; exact G.
Qed.

Section Sorting.

Variable R : Event -> Event -> Prop.
Hypothesis R_trans : forall x y z, R x y -> R y z -> R x z.

Lemma StronglySorted_filter (f : Event -> bool) (l : list Event) :
  StronglySorted R l -> StronglySorted R (filter f l).
Proof.
  induction 1 as [|ev l S IH F]; simpl; [constructor|].
  destruct (f ev); [|exact IH].
  constructor; [exact IH|].
  apply Forall_forall. intros y Hy. apply filter_In in Hy.
  rewrite Forall_forall in F. apply F, Hy.
Qed.

Lemma StronglySorted_insert_sorted (x : Event) (l : list Event) :
  (forall ev, In ev l ->
              goes_before (ev_asn x) (ev_priority x) ev = true -> R ev x) ->
  (forall ev, In ev l ->
              goes_before (ev_asn x) (ev_priority x) ev = false -> R x ev) ->
  StronglySorted R l -> StronglySorted R (insert_sorted x l).
Proof.
  intros Hb Ha S. induction S as [|ev l S IH F]; simpl.
  - repeat constructor.
  - destruct (goes_before (ev_asn x) (ev_priority x) ev) eqn:G.
    + constructor.
      * apply IH; intros; [apply Hb|apply Ha]; simpl; auto.
      * apply Forall_forall. intros y Hy. apply In_insert_sorted in Hy.
        destruct Hy as [->|Hy].
        -- apply Hb; simpl; auto.
        -- rewrite Forall_forall in F. auto.
    + assert (Rx : R x ev) by (apply Ha; simpl; auto).
      constructor; [constructor; assumption|].
      constructor; [exact Rx|].
      apply Forall_forall. intros y Hy. rewrite Forall_forall in F.
      apply R_trans with ev; auto.
Qed.

End Sorting.

Lemma goes_before_true (a p : Z) (ev : Event) :
  goes_before a p ev = true <->
  ev_asn ev < a \/ (ev_asn ev = a /\ ev_priority ev <= p).
Proof.
  unfold goes_before.
  rewrite orb_true_iff, andb_true_iff, Z.ltb_lt, Z.eqb_eq, Z.leb_le. tauto.
Qed.

Lemma goes_before_false (a p : Z) (ev : Event) :
  goes_before a p ev = false <->
  a < ev_asn ev \/ (ev_asn ev = a /\ p < ev_priority ev).
Proof.
  unfold goes_before.
  rewrite orb_false_iff, andb_false_iff, Z.ltb_ge, Z.eqb_neq, Z.leb_gt. lia.
Qed.

Lemma key_le_trans (x y z : Event) : key_le x y -> key_le y z -> key_le x z.
Proof. unfold key_le. lia. Qed.

Lemma sorted_queue_filter (f : Event -> bool) (l : list Event) :
  sorted_queue l -> sorted_queue (filter f l).
Proof. apply StronglySorted_filter. Qed.

Lemma sorted_queue_insert (x : Event) (l : list Event) :
  sorted_queue l -> sorted_queue (insert_sorted x l).
Proof.
  apply StronglySorted_insert_sorted.
  - exact key_le_trans.
  - intros ev _ G. apply goes_before_true in G. unfold key_le. lia.
  - intros ev _ G. apply goes_before_false in G. unfold key_le. lia.
Qed.

(** Under a sorted queue the head is the earliest event. *)
Lemma sorted_queue_head (ev : Event) (l : list Event) :
  sorted_queue (ev :: l) -> Forall (fun y => ev_asn ev <= ev_asn y) l.
Proof.
  intros S. inversion S as [|? ? _ F]; subst.
  eapply Forall_impl; [|exact F]. unfold key_le. intros; lia.
Qed.

Lemma sorted_queue_tail (ev : Event) (l : list Event) :
  sorted_queue (ev :: l) -> sorted_queue l.
Proof. intros S. now inversion S. Qed.

(* ===================================================================== *)
(** * Effect of the public methods on clock and queue *)
(* ===================================================================== *)

Lemma filter_all (l : list Event) : filter (fun _ => true) l = l.
Proof. induction l; simpl; congruence. Qed.

(** Every public method leaves the clock alone, and changes the queue by
    a removal, or by a removal and the insertion of a later event. *)
Lemma do_action_effect (e : SimEngine) (act : Action) :
  let e' := res_engine (do_action e act) in
  asn e' = asn e
  /\ settings e' = settings e
  /\ ((exists f, events e' = filter f (events e))
      \/ (exists ev f,
             scheduled_event e act = Some ev /\ asn e < ev_asn ev
             /\ events e' = insert_sorted ev (filter f (events e)))).
Proof.
  assert (Sched : forall e1 a cb t p x kw,
             let e' := res_engine (scheduleAtAsn e1 a cb t p x kw) in
             asn e' = asn e1 /\ settings e' = settings e1
             /\ ((exists f, events e' = filter f (events e1))
                 \/ (exists f, asn e1 < a
                       /\ events e' = insert_sorted (mkEvent a p cb t kw)
                                        (filter f (events e1))))).
  { intros e1 a cb t p x kw.
    destruct (scheduleAtAsn e1 a cb t p x kw) as [e2|err e2] eqn:H; simpl.
    - apply scheduleAtAsn_ok in H. destruct H as [Ha ->]. simpl.
      repeat split. right.
      destruct (truthy t).
      + eexists. split; [lia|reflexivity].
      + exists (fun _ => true). rewrite filter_all. split; [lia|reflexivity].
    - apply scheduleAtAsn_raise in H. destruct H as (_ & _ & ->).
      repeat split. left. exists (fun _ => true). now rewrite filter_all. }
  destruct act as [a cb t p x kw|d cb t p x kw|t x|cb|cb|d|a|];
    cbn [do_action res_engine scheduled_event].
  - destruct (Sched e a cb t p x kw) as (A & B & [C|[f [C1 C2]]]); repeat split; auto.
    right. exists (mkEvent a p cb t kw), f. auto.
  - unfold scheduleIn. destruct (scheduleIn_asn e d) as [err|a]; simpl.
    + repeat split. left. exists (fun _ => true). now rewrite filter_all.
    + destruct (Sched e a cb t p x kw) as (A & B & [C|[f [C1 C2]]]); repeat split; auto.
      right. exists (mkEvent a p cb t kw), f. auto.
  - repeat split. left. rewrite events_removeEvent. eexists. reflexivity.
  - repeat split. left. exists (fun _ => true). now rewrite filter_all.
  - repeat split. left. exists (fun _ => true). now rewrite filter_all.
  - unfold terminateSimulation.
    destruct (Sched (set_asnEndExperiment (Some (asn e + d)) e)
                    (asn (set_asnEndExperiment (Some (asn e + d)) e) + d)
                    ActionEndSim tag_endSim 0 true [])
      as (A & B & [C|[f [C1 C2]]]); repeat split; auto.
    right. exists (mkEvent (asn e + d) 0 ActionEndSim tag_endSim []), f. auto.
  - unfold pauseAtAsn. destruct (simPaused e) eqn:P; simpl.
    + repeat split. left. exists (fun _ => true). now rewrite filter_all.
    + destruct (Sched e a ActionPauseSim tag_pauseSim 0 true [])
        as (A & B & [C|[f [C1 C2]]]); repeat split; auto.
      right. exists (mkEvent a 0 ActionPauseSim tag_pauseSim []), f.
      simpl in C1. auto.
  - unfold play, _actionResumeSim. destruct (simPaused e); simpl;
      repeat split; left; exists (fun _ => true); now rewrite filter_all.
Qed.

Section QueuePredicate.

(** A property of clock and queue kept by removals and by the insertion
    of an event due after the clock. *)
Variable P : Z -> list Event -> Prop.
Hypothesis P_filter : forall c f l, P c l -> P c (filter f l).
Hypothesis P_insert :
  forall c ev l, c < ev_asn ev -> P c l -> P c (insert_sorted ev l).

Lemma do_action_keeps (e : SimEngine) (act : Action) :
  P (asn e) (events e) ->
  P (asn (res_engine (do_action e act))) (events (res_engine (do_action e act))).
Proof.
  intros H. destruct (do_action_effect e act) as (A & _ & [[f E]|(ev & f & _ & L & E)]);
    rewrite A, E; auto.
Qed.

Lemma do_actions_keeps (acts : list Action) :
  forall e, P (asn e) (events e) ->
            P (asn (res_engine (do_actions e acts)))
              (events (res_engine (do_actions e acts))).
Proof.
  induction acts as [|act acts IH]; intros e H; simpl; [exact H|].
  pose proof (do_action_keeps e act H) as K.
  destruct (do_action e act) as [e1|err e1]; simpl in *; auto.
Qed.

Lemma invoke_keeps (beh : Behaviour) (cb : Callback) (kw : Kwargs)
      (e : SimEngine) :
  P (asn e) (events e) ->
  P (asn (invoked_engine (invoke beh cb kw e)))
    (events (invoked_engine (invoke beh cb kw e))).
Proof.
  intros H. destruct cb as [| |id]; simpl.
  - destruct (no_kwargs kw); exact H.
  - destruct (no_kwargs kw); [destruct (simPaused e)|]; exact H.
  - pose proof (do_actions_keeps (beh id kw e) e H) as K.
    destruct (do_actions e (beh id kw e)); exact K.
Qed.

End QueuePredicate.

Lemma do_actions_asn (acts : list Action) (e : SimEngine) :
  asn (res_engine (do_actions e acts)) = asn e.
Proof.
  apply (do_actions_keeps (fun c _ => c = asn e)); auto.
Qed.

Lemma invoke_asn (beh : Behaviour) (cb : Callback) (kw : Kwargs) (e : SimEngine) :
  asn (invoked_engine (invoke beh cb kw e)) = asn e.
Proof.
  apply (invoke_keeps (fun c _ => c = asn e)); auto.
Qed.

Lemma inv_ge_filter (c : Z) (f : Event -> bool) (l : list Event) :
  sorted_queue l /\ Forall (fun ev => c <= ev_asn ev) l ->
  sorted_queue (filter f l) /\ Forall (fun ev => c <= ev_asn ev) (filter f l).
Proof.
  intros [S F]. split; [now apply sorted_queue_filter|].
  apply Forall_forall. intros y Hy. apply filter_In in Hy.
  rewrite Forall_forall in F. apply F, Hy.
Qed.

Lemma inv_gt_filter (c : Z) (f : Event -> bool) (l : list Event) :
  sorted_queue l /\ Forall (fun ev => c < ev_asn ev) l ->
  sorted_queue (filter f l) /\ Forall (fun ev => c < ev_asn ev) (filter f l).
Proof.
  intros [S F]. split; [now apply sorted_queue_filter|].
  apply Forall_forall. intros y Hy. apply filter_In in Hy.
  rewrite Forall_forall in F. apply F, Hy.
Qed.

Lemma inv_ge_insert (c : Z) (ev : Event) (l : list Event) :
  c < ev_asn ev ->
  sorted_queue l /\ Forall (fun y => c <= ev_asn y) l ->
  sorted_queue (insert_sorted ev l)
  /\ Forall (fun y => c <= ev_asn y) (insert_sorted ev l).
Proof.
  intros L [S F]. split; [now apply sorted_queue_insert|].
  apply Forall_forall. intros y Hy. apply In_insert_sorted in Hy.
  rewrite Forall_forall in F. destruct Hy as [->|Hy]; [lia|auto].
Qed.

Lemma inv_gt_insert (c : Z) (ev : Event) (l : list Event) :
  c < ev_asn ev ->
  sorted_queue l /\ Forall (fun y => c < ev_asn y) l ->
  sorted_queue (insert_sorted ev l)
  /\ Forall (fun y => c < ev_asn y) (insert_sorted ev l).
Proof.
  intros L [S F]. split; [now apply sorted_queue_insert|].
  apply Forall_forall. intros y Hy. apply In_insert_sorted in Hy.
  rewrite Forall_forall in F. destruct Hy as [->|Hy]; [lia|auto].
Qed.

Lemma invoke_inv_ge (beh : Behaviour) (cb : Callback) (kw : Kwargs) (e : SimEngine) :
  inv_ge e -> inv_ge (invoked_engine (invoke beh cb kw e)).
Proof.
  apply (invoke_keeps
           (fun c l => sorted_queue l /\ Forall (fun ev => c <= ev_asn ev) l)).
  - intros; now apply inv_ge_filter.
  - intros; now apply inv_ge_insert.
Qed.

Lemma invoke_inv_gt (beh : Behaviour) (cb : Callback) (kw : Kwargs) (e : SimEngine) :
  inv_gt e -> inv_gt (invoked_engine (invoke beh cb kw e)).
Proof.
  apply (invoke_keeps
           (fun c l => sorted_queue l /\ Forall (fun ev => c < ev_asn ev) l)).
  - intros; now apply inv_gt_filter.
  - intros; now apply inv_gt_insert.
Qed.

Lemma inv_gt_ge (e : SimEngine) : inv_gt e -> inv_ge e.
Proof.
  intros [S F]. split; [exact S|].
  eapply Forall_impl; [|exact F]. simpl. intros; lia.
Qed.

(* ===================================================================== *)
(** * Steps of [run()] *)
(* ===================================================================== *)

Lemma step_engine_after_call (k : Loc) (r : Invoked) :
  step_engine (after_call k r) = invoked_engine r.
Proof. now destruct r. Qed.

Lemma wf_after_call (k : Loc) (r : Invoked) :
  wf k (invoked_engine r) ->
  match after_call k r with
  | Next k' e' => wf k' e'
  | Stop _ _ => True
  end.
Proof. destruct r; simpl; auto. Qed.

Lemma wf_cases (k : Loc) (e : SimEngine) :
  wf k e -> if in_batch k then inv_ge e else inv_gt e.
Proof. induction k; simpl; auto. Qed.

Lemma wf_inv_ge (k : Loc) (e : SimEngine) : wf k e -> inv_ge e.
Proof.
  intros H. apply wf_cases in H. destruct (in_batch k); auto using inv_gt_ge.
Qed.

Lemma wf_set_pauseSem (k : Loc) (n : nat) (e : SimEngine) :
  wf k e -> wf k (set_pauseSem n e).
Proof. induction k; simpl; auto. Qed.

(** A step keeps the queue invariant of the program point it reaches. *)
Lemma step_keeps_wf (beh : Behaviour) (k : Loc) (e : SimEngine) :
  wf k e ->
  match snd (step beh k e) with
  | Next k' e' => wf k' e'
  | Stop _ _ => True
  end.
Proof.
  intros W. destruct k as [i| | |k'|i]; simpl in *.
  - destruct (nth_error (startCb e) i) as [cb|]; simpl; [|exact W].
    apply wf_after_call. simpl. now apply invoke_inv_gt.
  - destruct (goOn e); simpl; [|exact W].
    destruct (events e) as [|ev rest] eqn:Ev; simpl; [exact W|].
    destruct (ev_tag ev) as [[o name]|]; simpl; [|exact I].
    destruct (negb (is_pause_name name) && negb (ev_asn ev >=? asn e)); simpl; [exact I|].
    destruct W as [S F]. rewrite Ev in S, F. unfold inv_ge. simpl. rewrite Ev.
    split; [exact S|]. constructor; [lia|]. now apply sorted_queue_head.
  - destruct (events e) as [|ev rest] eqn:Ev; simpl; [exact I|].
    destruct W as [S F]. rewrite Ev in S, F.
    destruct (ev_asn ev =? asn e) eqn:Q; simpl.
    + apply wf_after_call. simpl. apply invoke_inv_ge.
      split; simpl; [now apply sorted_queue_tail in S|now inversion F].
    + apply Z.eqb_neq in Q. split; rewrite Ev; [exact S|].
      assert (L : asn e < ev_asn ev) by (inversion F; lia).
      constructor; [exact L|].
      eapply Forall_impl; [|apply (sorted_queue_head _ _ S)]. simpl. intros; lia.
  - destruct (pauseSem e); simpl; [exact I|]. now apply wf_set_pauseSem.
  - destruct (nth_error (endCb e) i) as [cb|]; simpl; [|exact I].
    apply wf_after_call. simpl. now apply invoke_inv_gt.
Qed.

(** The calls of a step: none, a hook, or the event at the head of the
    queue, due at the clock, called on the queue without it. *)
Lemma step_dispatch (beh : Behaviour) (k : Loc) (e : SimEngine) :
  dispatched (fst (step beh k e)) = []
  \/ (k = AtBatch
      /\ exists ev rest,
          events e = ev :: rest /\ ev_asn ev = asn e
          /\ fst (step beh k e) = [CallEvent (asn e) ev]
          /\ snd (step beh k e)
             = after_call AtBatch
                 (invoke beh (ev_cb ev) (ev_kwargs ev) (set_events rest e))).
Proof.
  destruct k as [i| | |k'|i]; simpl.
  - destruct (nth_error (startCb e) i); auto.
  - destruct (goOn e); simpl; auto. destruct (events e) as [|ev rest]; auto.
    destruct (ev_tag ev) as [[o name]|]; auto.
    destruct (negb (is_pause_name name) && negb (ev_asn ev >=? asn e)); auto.
  - destruct (events e) as [|ev rest]; auto.
    destruct (ev_asn ev =? asn e) eqn:Q; simpl; auto.
    right. split; [reflexivity|]. exists ev, rest. apply Z.eqb_eq in Q. auto.
  - destruct (pauseSem e); auto.
  - destruct (nth_error (endCb e) i); auto.
Qed.

(** The clock never goes back in a step; outside [while True] the next
    step that changes it moves it forward. *)
Lemma step_asn (beh : Behaviour) (k : Loc) (e : SimEngine) :
  wf k e ->
  let e' := step_engine (snd (step beh k e)) in
  asn e <= asn e' /\ (in_batch k = true -> asn e' = asn e).
Proof.
  intros W. destruct k as [i| | |k'|i]; simpl in *.
  - destruct (nth_error (startCb e) i) as [cb|]; simpl; [|split; [lia|discriminate]].
    rewrite step_engine_after_call, invoke_asn. split; [lia|discriminate].
  - split; [|discriminate].
    destruct (goOn e); simpl; [|lia].
    destruct (events e) as [|ev rest] eqn:Ev; simpl; [lia|].
    destruct (ev_tag ev) as [[o name]|]; simpl; [|lia].
    destruct (negb (is_pause_name name) && negb (ev_asn ev >=? asn e)); simpl; [lia|].
    destruct W as [_ F]. rewrite Ev in F. inversion F; lia.
  - destruct (events e) as [|ev rest] eqn:Ev; simpl; [split; [lia|auto]|].
    destruct (ev_asn ev =? asn e); simpl; [|split; [lia|auto]].
    rewrite step_engine_after_call, invoke_asn. simpl. split; [lia|auto].
  - destruct (pauseSem e); simpl; split; auto; lia.
  - destruct (nth_error (endCb e) i) as [cb|]; simpl; [|split; [lia|discriminate]].
    rewrite step_engine_after_call, invoke_asn. split; [lia|discriminate].
Qed.

Lemma dispatched_app (c1 c2 : list Call) :
  dispatched (c1 ++ c2) = dispatched c1 ++ dispatched c2.
Proof.
  induction c1 as [|c c1 IH]; simpl; [reflexivity|].
  destruct c; simpl; now rewrite IH.
Qed.

Lemma end_hooks_app (c1 c2 : list Call) :
  end_hooks (c1 ++ c2) = end_hooks c1 ++ end_hooks c2.
Proof.
  induction c1 as [|c c1 IH]; simpl; [reflexivity|].
  destruct c; simpl; now rewrite IH.
Qed.

Lemma exec_unfold (beh : Behaviour) (fuel : nat) (k : Loc) (e : SimEngine) :
  exec beh (S fuel) k e
  = match snd (step beh k e) with
    | Next k' e' => prepend (fst (step beh k e)) (exec beh fuel k' e')
    | Stop x e' => mkTrace (fst (step beh k e)) x e'
    end.
Proof. simpl. destruct (step beh k e) as [c [k' e'|x e']]; reflexivity. Qed.

(* ===================================================================== *)
(** * Executions of [run()] *)
(* ===================================================================== *)

Lemma well_timed_weaken (lo lo' : Z) (l : list (Z * Event)) :
  lo <= lo' -> well_timed lo' l -> well_timed lo l.
Proof.
  intros L [S F]. split; [exact S|].
  eapply Forall_impl; [|exact F]. simpl. intros ce [A B]. split; [exact A|lia].
Qed.

Lemma well_timed_cons (lo : Z) (ev : Event) (l : list (Z * Event)) :
  ev_asn ev = lo -> well_timed lo l -> well_timed lo ((lo, ev) :: l).
Proof.
  intros E [S F]. split.
  - constructor; [exact S|].
    eapply Forall_impl; [|exact F]. simpl. intros ce [_ B]. exact B.
  - constructor; [simpl; split; [auto|lia]|exact F].
Qed.

(** From a well-formed state every execution dispatches in time order,
    each event at its own time, and the clock only grows. *)
Lemma exec_well_timed (beh : Behaviour) (fuel : nat) :
  forall (k : Loc) (e : SimEngine),
    wf k e ->
    let t := exec beh fuel k e in
    well_timed (asn e) (dispatched (calls t))
    /\ asn e <= asn (final t)
    /\ Forall (fun ce => fst ce <= asn (final t)) (dispatched (calls t)).
Proof.
  induction fuel as [|fuel IH]; intros k e W.
  - simpl. repeat split; try constructor; lia.
  - cbv zeta. rewrite exec_unfold.
    pose proof (step_keeps_wf beh k e W) as KW.
    pose proof (step_asn beh k e W) as [Mono Same].
    pose proof (step_dispatch beh k e) as D.
    destruct (snd (step beh k e)) as [k' e'|x e'] eqn:Sn; simpl in Mono, Same.
    + specialize (IH k' e' KW). cbv zeta in IH.
      destruct IH as (WT & Fin & Up).
      unfold prepend; simpl. rewrite dispatched_app.
      destruct D as [D|(-> & ev & rest & Ev & T & C & _)].
      * rewrite D. simpl. split; [|split; [lia|exact Up]].
        now apply well_timed_weaken with (asn e').
      * rewrite C. simpl. specialize (Same eq_refl).
        rewrite Same in WT, Fin.
        split; [now apply well_timed_cons|split; [lia|]].
        constructor; [simpl; lia|exact Up].
    + simpl.
      destruct D as [D|(-> & ev & rest & Ev & T & C & _)].
      * rewrite D. split; [split; constructor|split; [lia|constructor]].
      * rewrite C. simpl. specialize (Same eq_refl).
        split; [|split; [lia|constructor; [simpl; lia|constructor]]].
        apply well_timed_cons; [exact T|]. split; constructor.
Qed.

(** More fuel changes nothing once an execution has stopped. *)
Lemma exec_more_fuel (beh : Behaviour) (fuel : nat) :
  forall (k : Loc) (e : SimEngine) (extra : nat),
    (forall k', exit (exec beh fuel k e) <> OutOfFuel k') ->
    exec beh (fuel + extra) k e = exec beh fuel k e.
Proof.
  induction fuel as [|fuel IH]; intros k e extra H.
  - exfalso. apply (H k). reflexivity.
  - replace (S fuel + extra)%nat with (S (fuel + extra)) by lia.
    rewrite !exec_unfold. rewrite exec_unfold in H.
    destruct (snd (step beh k e)) as [k' e'|x e']; [|reflexivity].
    rewrite IH; [reflexivity|]. exact H.
Qed.

Lemma exec_enough_fuel (beh : Behaviour) (n fuel : nat) (k : Loc) (e : SimEngine) :
  (forall k', exit (exec beh n k e) <> OutOfFuel k') ->
  (n <= fuel)%nat ->
  exec beh fuel k e = exec beh n k e.
Proof.
  intros H L. replace fuel with (n + (fuel - n))%nat by lia.
  now apply exec_more_fuel.
Qed.

(* ===================================================================== *)
(** * Scheduling into the past, and tags *)
(* ===================================================================== *)

(** C3: a call of [scheduleAtAsn] with a time at or before the clock fails
    the assertion [asn > self.asn], whatever the time and the other
    arguments, and leaves the engine, so also the queue, as it was. *)
Theorem scheduleAtAsn_not_in_future (e : SimEngine) (X : Z) (cb : Callback)
        (uniqueTag : option Tag) (priority : Z) (exceptCurrentASN : bool)
        (kwargs : Kwargs) :
  X <= asn e ->
  scheduleAtAsn e X cb uniqueTag priority exceptCurrentASN kwargs
  = Raise AssertionError e
  /\ events (res_engine
               (scheduleAtAsn e X cb uniqueTag priority exceptCurrentASN kwargs))
     = events e.
Proof.
  intros H. rewrite scheduleAtAsn_fails by exact H. auto.
Qed.

Lemma scheduleAtAsn_not_in_future_witness :
  7 <= asn (set_asn 7 fresh)
  /\ scheduleAtAsn (set_asn 7 fresh) 7 (UserCb 1) (mote_tag 1 "app") 0 true []
     = Raise AssertionError (set_asn 7 fresh)
  /\ events (res_engine
               (scheduleAtAsn (set_asn 7 fresh) 7 (UserCb 1) (mote_tag 1 "app")
                              0 true []))
     = events (set_asn 7 fresh).
Proof.
  split; [simpl; lia|].
  apply (scheduleAtAsn_not_in_future (set_asn 7 fresh) 7). simpl; lia.
Defined.

Lemma owner_eqb_refl (o : Owner) : owner_eqb o o = true.
Proof. destruct o; simpl; auto using String.eqb_refl, Z.eqb_refl. Qed.

Lemma tag_eqb_refl (t : option Tag) : tag_eqb t t = true.
Proof.
  destruct t as [[o n]|]; simpl; [|reflexivity].
  now rewrite owner_eqb_refl, String.eqb_refl.
Qed.









(* ===================================================================== *)
(** * The order of the queue *)
(* ===================================================================== *)

Lemma invoke_idle_events (cb : Callback) (kw : Kwargs) (e : SimEngine) :
  events (invoked_engine (invoke idle cb kw e)) = events e.
Proof.
  destruct cb; simpl.
  - now destruct (no_kwargs kw).
  - destruct (no_kwargs kw); [destruct (simPaused e)|]; reflexivity.
  - reflexivity.
Qed.

(** With callbacks that leave the queue alone, a step dispatches the head
    of the queue or nothing. *)
Lemma step_idle (k : Loc) (e : SimEngine) :
  (dispatched (fst (step idle k e)) = []
   /\ events (step_engine (snd (step idle k e))) = events e)
  \/ (exists ev rest,
         events e = ev :: rest
         /\ dispatched (fst (step idle k e)) = [(ev_asn ev, ev)]
         /\ events (step_engine (snd (step idle k e))) = rest).
Proof.
  destruct k as [i| | |k'|i]; simpl.
  - left. destruct (nth_error (startCb e) i); simpl; auto.
    now rewrite step_engine_after_call, invoke_idle_events.
  - left. destruct (goOn e); simpl; auto.
    destruct (events e) as [|ev rest] eqn:Ev; simpl; auto.
    destruct (ev_tag ev) as [[o name]|]; simpl; auto.
    destruct (negb (is_pause_name name) && negb (ev_asn ev >=? asn e)); simpl; auto.
  - destruct (events e) as [|ev rest] eqn:Ev; simpl; auto.
    destruct (ev_asn ev =? asn e) eqn:Q; simpl; auto.
    right. exists ev, rest. apply Z.eqb_eq in Q. rewrite Q.
    now rewrite step_engine_after_call, invoke_idle_events.
  - left. destruct (pauseSem e); simpl; auto.
  - left. destruct (nth_error (endCb e) i); simpl; auto.
    now rewrite step_engine_after_call, invoke_idle_events.
Qed.

(** So the dispatches of an execution follow the queue from its head. *)
Lemma exec_idle_queue_order (fuel : nat) :
  forall (k : Loc) (e : SimEngine),
  exists n, dispatched (calls (exec idle fuel k e))
            = firstn n (in_queue_order (events e)).
Proof.
  induction fuel as [|fuel IH]; intros k e.
  - exists 0%nat. reflexivity.
  - rewrite exec_unfold.
    destruct (step_idle k e) as [[D E]|(ev & rest & Ev & D & E)].
    + destruct (snd (step idle k e)) as [k' e'|x e']; simpl in *.
      * destruct (IH k' e') as [n Hn]. exists n.
        now rewrite dispatched_app, D, Hn, E.
      * exists 0%nat. now rewrite D.
    + destruct (snd (step idle k e)) as [k' e'|x e']; simpl in *.
      * destruct (IH k' e') as [n Hn]. exists (S n).
        rewrite dispatched_app, D, Hn, E, Ev. reflexivity.
      * exists 1%nat. rewrite D, Ev. reflexivity.
Qed.


(* ===================================================================== *)
(** * Runs dispatch in time order *)
(* ===================================================================== *)






(** ** Scheduling events with distinct tags, in any order *)


Lemma Permutation_insert_sorted (x : Event) (l : list Event) :
  Permutation (insert_sorted x l) (x :: l).
Proof.
  destruct (insert_sorted_split x l) as (l1 & l2 & -> & -> & _).
  symmetry. apply Permutation_middle.
Qed.





(** ** The steps of a run whose callbacks leave the engine alone *)

Lemma invoke_inert (beh : Behaviour) (cb : Callback) (kw : Kwargs) (e : SimEngine) :
  inert beh cb -> invoke beh cb kw e = Returned e.
Proof. intros (id & -> & H). simpl. now rewrite H. Qed.










Lemma scheduleAtAsn_parts (e : SimEngine) (a : Z) (cb : Callback)
      (t : option Tag) (p : Z) (x : bool) (kw : Kwargs) :
  scheduleAtAsn e a cb t p x kw
  = if scheduleAtAsn_assert e a
    then Ok (scheduleAtAsn_locked e a cb t p x kw)
    else Raise AssertionError e.
Proof.
  unfold scheduleAtAsn, scheduleAtAsn_assert, scheduleAtAsn_locked.
  now destruct (a >? asn e).
Qed.

(** The clock can move back when a controller thread calls [pauseAtAsn]
    while the loop runs: the assertion of [pauseAtAsn(5)] passes at clock
    0, the loop makes the turn of time 7, the sentinel is then inserted at
    5, and the next turn, which exempts the pause sentinel from its check,
    sets the clock to 5.  An ordinary event inserted this way makes the
    loop's assertion fail instead. *)
Example clock_moves_back_on_late_pause :
  scheduleAtAsn_assert before_turn 5 = true
  /\ asn after_turn = 7
  /\ map ev_asn (events after_turn) = [20]
  /\ asn (final (exec idle 1 AtLoop
                   (scheduleAtAsn_locked after_turn 5 ActionPauseSim tag_pauseSim
                                         0 true []))) = 5
  /\ exit (exec idle 1 AtLoop
              (scheduleAtAsn_locked after_turn 5 (UserCb 3) (mote_tag 3 "app")
                                    0 true []))
     = Raised AssertionError.
Proof. vm_compute. repeat split. Qed.

(* ===================================================================== *)
(** * What a batch sees of its callbacks *)
(* ===================================================================== *)

(** A callback adds no event due at or before the clock. *)
Lemma invoke_no_event_now (beh : Behaviour) (cb : Callback) (kw : Kwargs)
      (e : SimEngine) (y : Event) :
  In y (events (invoked_engine (invoke beh cb kw e))) ->
  ev_asn y <= asn e -> In y (events e).
Proof.
  intros I L.
  assert (K : forall z,
             In z (events (invoked_engine (invoke beh cb kw e))) ->
             ev_asn z <= asn (invoked_engine (invoke beh cb kw e)) ->
             In z (events e)).
  { apply (invoke_keeps
             (fun c l => forall z, In z l -> ev_asn z <= c -> In z (events e))).
    - intros c f l H z Iz Lz. apply filter_In in Iz. apply H; tauto.
    - intros c ev l Lt H z Iz Lz. apply In_insert_sorted in Iz.
      destruct Iz as [->|Iz]; [lia|auto].
    - auto. }
  apply K; [exact I|]. now rewrite invoke_asn.
Qed.

(** Outside [while True] every later dispatch happens at a later clock. *)
Lemma exec_later (beh : Behaviour) (fuel : nat) :
  forall (k : Loc) (e : SimEngine),
    wf k e -> in_batch k = false ->
    Forall (fun ce => asn e < fst ce) (dispatched (calls (exec beh fuel k e))).
Proof.
  induction fuel as [|fuel IH]; intros k e W B; [constructor|].
  rewrite exec_unfold.
  pose proof (step_keeps_wf beh k e W) as KW.
  destruct k as [i| | |k'|i]; try discriminate; cbn [step] in *.
  - destruct (nth_error (startCb e) i) as [cb|]; cbn [fst snd] in *.
    + pose proof (invoke_asn beh cb [] e) as A.
      destruct (invoke beh cb [] e) as [e'|x e'|e']; cbn [after_call] in *;
        try constructor; unfold prepend; cbn [calls app dispatched];
        rewrite <- A; apply IH; auto.
    + unfold prepend; cbn [calls app]. apply IH; auto.
  - destruct (goOn e); cbn [negb fst snd] in *;
      [|unfold prepend; cbn [calls app]; apply IH; auto].
    destruct (events e) as [|ev rest] eqn:Ev; cbn [fst snd] in *;
      [unfold prepend; cbn [calls app]; apply IH; auto|].
    destruct (ev_tag ev) as [[o name]|]; cbn [fst snd] in *; [|constructor].
    destruct (negb (is_pause_name name) && negb (ev_asn ev >=? asn e));
      cbn [fst snd] in *; [constructor|].
    unfold prepend; cbn [calls app].
    destruct (exec_well_timed beh fuel AtBatch _ KW) as ([_ F] & _).
    destruct W as [_ Fut]. rewrite Ev in Fut.
    assert (L : asn e < ev_asn ev) by (inversion Fut; assumption).
    eapply Forall_impl; [|exact F]. cbn [asn set_asn]. intros ce [_ H]. lia.
  - simpl in B. destruct (pauseSem e); cbn [fst snd] in *; [constructor|].
    unfold prepend; cbn [calls app].
    apply (IH k' (set_pauseSem n e)); auto.
  - destruct (nth_error (endCb e) i) as [cb|]; cbn [fst snd] in *; [|constructor].
    pose proof (invoke_asn beh cb [] e) as A.
    destruct (invoke beh cb [] e) as [e'|x e'|e']; cbn [after_call] in *;
      try constructor; unfold prepend; cbn [calls app dispatched];
      rewrite <- A; apply IH; auto.
Qed.

(** Inside [while True] whatever is dispatched at the present clock was
    pending. *)
Lemma dispatched_now_was_pending (beh : Behaviour) (fuel : nat) :
  forall (k : Loc) (e : SimEngine),
    wf k e -> in_batch k = true ->
    forall c y,
      In (c, y) (dispatched (calls (exec beh fuel k e))) ->
      c = asn e -> In y (events e).
Proof.
  induction fuel as [|fuel IH]; intros k e W B c y I C; [destruct I|].
  rewrite exec_unfold in I.
  pose proof (step_keeps_wf beh k e W) as KW.
  destruct k as [i| | |k'|i]; try discriminate; cbn [step] in *.
  - destruct (events e) as [|ev rest] eqn:Ev; cbn [fst snd] in *; [destruct I|].
    destruct (ev_asn ev =? asn e) eqn:Q; cbn [negb fst snd] in *.
    + apply Z.eqb_eq in Q.
      pose proof (invoke_asn beh (ev_cb ev) (ev_kwargs ev) (set_events rest e)) as A.
      pose proof (invoke_no_event_now beh (ev_cb ev) (ev_kwargs ev) (set_events rest e)) as N.
      cbn [asn events set_events] in A, N.
      destruct (invoke beh (ev_cb ev) (ev_kwargs ev) (set_events rest e))
        as [e'|x e'|e']; cbn [after_call invoked_engine] in *.
      * unfold prepend in I; cbn [calls app dispatched] in I.
        destruct I as [I|I]; [inversion I; subst; now left|].
        right. apply N; [|].
        -- apply (IH AtBatch e' KW eq_refl c y I). lia.
        -- destruct (exec_well_timed beh fuel AtBatch e' KW) as ([_ F] & _).
           rewrite Forall_forall in F. destruct (F _ I) as [T _]. simpl in T. lia.
      * cbn [calls dispatched] in I. destruct I as [I|[]].
        inversion I; subst; now left.
      * unfold prepend in I; cbn [calls app dispatched] in I.
        destruct I as [I|I]; [inversion I; subst; now left|].
        right. apply N; [|].
        -- apply (IH (AtGate AtBatch) e' KW eq_refl c y I). lia.
        -- destruct (exec_well_timed beh fuel (AtGate AtBatch) e' KW) as ([_ F] & _).
           rewrite Forall_forall in F. destruct (F _ I) as [T _]. simpl in T. lia.
    + exfalso. unfold prepend in I; cbn [calls app] in I.
      pose proof (exec_later beh fuel AtLoop e KW eq_refl) as L.
      rewrite Forall_forall in L. specialize (L _ I). simpl in L. lia.
  - simpl in B. destruct (pauseSem e); cbn [fst snd] in *; [destruct I|].
    unfold prepend in I; cbn [calls app] in I.
    apply (IH k' (set_pauseSem n e) KW B c y I C).
Qed.

(** C5, as the code has it: when the run loop calls the callback of an
    event due at the clock, the call is made on the queue without that
    event and the batch goes on from the engine the callback leaves, at
    the same clock; there a [scheduleAtAsn] with the time of the clock
    fails its assertion, and no event due at the clock has been added;
    every event dispatched later at this clock was pending when the
    callback returned, so what it cancelled is not dispatched; when the
    loop leaves the batch nothing pending is due at the clock; an
    exception raised in the callback leaves [run()] at once; and every
    event in the queue when the callback is over was pending before the
    call or is due after the clock. *)
Theorem batch_observes_callback (beh : Behaviour) (e : SimEngine) (ev : Event)
        (rest : list Event) (fuel : nat) :
  inv_ge e -> events e = ev :: rest -> ev_asn ev = asn e ->
  let r := invoke beh (ev_cb ev) (ev_kwargs ev) (set_events rest e) in
  let e1 := invoked_engine r in
  step beh AtBatch e = ([CallEvent (asn e) ev], after_call AtBatch r)
  /\ asn e1 = asn e
  /\ (forall cb t p x kw,
         scheduleAtAsn e1 (asn e1) cb t p x kw = Raise AssertionError e1)
  /\ (forall y, In y (events e1) -> ev_asn y = asn e -> In y rest)
  /\ (forall c y,
         In (c, y) (dispatched (calls (exec beh fuel AtBatch e1))) ->
         c = asn e -> In y (events e1))
  /\ (forall e2 e3,
         inv_ge e2 -> snd (step beh AtBatch e2) = Next AtLoop e3 ->
         Forall (fun y => asn e3 < ev_asn y) (events e3))
  /\ (forall x e',
         r = Failed x e' ->
         exec beh (S fuel) AtBatch e
         = mkTrace [CallEvent (asn e) ev] (Raised x) e')
  /\ (forall y, In y (events e1) -> In y rest \/ asn e < ev_asn y).
Proof.
  intros W Ev T r e1.
  assert (W1 : inv_ge e1).
  { apply invoke_inv_ge. destruct W as [Srt F]. rewrite Ev in Srt, F.
    split; cbn [events set_events asn];
      [now apply sorted_queue_tail in Srt|now inversion F]. }
  assert (A : asn e1 = asn e)
    by apply (invoke_asn beh (ev_cb ev) (ev_kwargs ev) (set_events rest e)).
  assert (St : step beh AtBatch e = ([CallEvent (asn e) ev], after_call AtBatch r)).
  { cbn [step]. rewrite Ev, T, Z.eqb_refl. reflexivity. }
  split; [exact St|split; [exact A|split; [|split; [|split; [|split; [|split]]]]]].
  - intros cb t p x kw. apply scheduleAtAsn_fails. lia.
  - intros y I Ty.
    apply (invoke_no_event_now beh (ev_cb ev) (ev_kwargs ev) (set_events rest e) y I).
    cbn [asn set_events]. lia.
  - intros c y I C. rewrite <- A in C.
    exact (dispatched_now_was_pending beh fuel AtBatch e1 W1 eq_refl c y I C).
  - intros e2 e3 W2 St2. pose proof (step_keeps_wf beh AtBatch e2 W2) as K.
    rewrite St2 in K. exact (proj2 K).
  - intros x e' Fl. rewrite exec_unfold, St. cbn [fst snd]. now rewrite Fl.
  - assert (K : forall y,
               In y (events (invoked_engine
                               (invoke beh (ev_cb ev) (ev_kwargs ev) (set_events rest e)))) ->
               In y rest
               \/ asn (invoked_engine
                         (invoke beh (ev_cb ev) (ev_kwargs ev) (set_events rest e)))
                  < ev_asn y).
    { apply (invoke_keeps
               (fun c l => forall y, In y l -> In y rest \/ c < ev_asn y)).
      - intros c f l H y Iy. apply filter_In in Iy. apply H. tauto.
      - intros c x l Lt H y Iy. apply In_insert_sorted in Iy.
        destruct Iy as [->|Iy]; [now right|auto].
      - cbn [events set_events]. auto. }
    intros y I. fold r in K. fold e1 in K. rewrite A in K. now apply K.
Qed.

Lemma batch_observes_callback_witness :
  inv_ge busy
  /\ (forall c y,
         In (c, y)
            (dispatched
               (calls (exec beh_cancel 5 AtBatch
                         (invoked_engine
                            (invoke beh_cancel (UserCb 1) []
                                    (set_events
                                       [ mkEvent 9 0 (UserCb 2) (mote_tag 1 "app") [];
                                         mkEvent 9 1 (UserCb 3) None [] ]
                                       busy)))))) ->
         c = asn busy ->
         In y (events (invoked_engine
                         (invoke beh_cancel (UserCb 1) []
                                 (set_events
                                    [ mkEvent 9 0 (UserCb 2) (mote_tag 1 "app") [];
                                      mkEvent 9 1 (UserCb 3) None [] ]
                                    busy))))).
Proof.
  assert (W : inv_ge busy).
  { split; repeat constructor; unfold key_le; simpl; lia. }
  split; [exact W|].
  exact (proj1 (proj2 (proj2 (proj2 (proj2
           (batch_observes_callback beh_cancel busy
              (mkEvent 5 0 (UserCb 1) (mote_tag 1 "app") [])
              [ mkEvent 9 0 (UserCb 2) (mote_tag 1 "app") [];
                mkEvent 9 1 (UserCb 3) None [] ]
              5 W eq_refl eq_refl)))))).
Defined.

(** C5, as the claim has it, fails: a callback called at clock 5 that
    schedules an event at time 5 does not see it dispatched in the batch;
    the assertion of [scheduleAtAsn] ends the run and the event is never
    in the queue. *)
Lemma schedule_at_clock_not_dispatched :
  let t := run beh_now 20 two_batches in
  calls t = [CallEvent 5 (mkEvent 5 0 (UserCb 1) (mote_tag 1 "app") [])]
  /\ exit t = Raised AssertionError
  /\ events (final t) = [mkEvent 7 0 (UserCb 2) (mote_tag 2 "app") []].
Proof. vm_compute. repeat split. Qed.

(** A cancellation is seen in the same batch: callback 1, called at clock
    5, removes the event of mote 1 due at 5 that follows it, and the batch
    goes on to the third event without dispatching it. *)
Example cancel_in_batch :
  dispatched
    (calls (exec beh_cancel 4 AtBatch
              (set_events
                 [ mkEvent 5 0 (UserCb 1) (mote_tag 0 "app") [];
                   mkEvent 5 1 (UserCb 2) (mote_tag 1 "app") [];
                   mkEvent 5 2 (UserCb 3) (mote_tag 2 "app") [];
                   mkEvent 8 0 (UserCb 4) (mote_tag 3 "app") [] ]
                 (set_asn 5 fresh))))
  = [ (5, mkEvent 5 0 (UserCb 1) (mote_tag 0 "app") []);
      (5, mkEvent 5 2 (UserCb 3) (mote_tag 2 "app") []) ].
Proof. vm_compute. reflexivity. Qed.

(* ===================================================================== *)
(** * How the loops end *)
(* ===================================================================== *)

Lemma skipn_nth_error {A : Type} (l : list A) (i : nat) (a : A) :
  nth_error l i = Some a -> skipn i l = a :: skipn (S i) l.
Proof.
  revert i; induction l as [|x l IH]; intros [|i] H; simpl in *; try discriminate.
  - inversion H; reflexivity.
  - apply IH, H.
Qed.

(** The [for] over [self.endCb] calls every hook from index [i] on, in
    the order of registration, when the hooks leave the engine alone. *)
Lemma end_hooks_called (beh : Behaviour) (e : SimEngine) :
  Forall (inert beh) (endCb e) ->
  forall n i,
    (List.length (endCb e) - i = n)%nat ->
    exec beh (S n) (AtEnd i) e
    = mkTrace (map CallEnd (skipn i (endCb e))) Finished e.
Proof.
  intros Idl. induction n as [|n IH]; intros i L; rewrite exec_unfold; cbn [step].
  - assert (N : nth_error (endCb e) i = None) by (apply nth_error_None; lia).
    rewrite N. cbn [fst snd]. rewrite skipn_all2 by lia. reflexivity.
  - destruct (nth_error (endCb e) i) as [cb|] eqn:N.
    + rewrite invoke_inert
        by (rewrite Forall_forall in Idl; apply Idl; eapply nth_error_In; eauto).
      cbn [after_call fst snd]. rewrite IH by lia.
      unfold prepend; cbn [calls exit final app].
      now rewrite (skipn_nth_error _ _ _ N).
    + apply nth_error_None in N. lia.
Qed.

(** The part of C6 the code keeps: when [while self.goOn] finds the queue
    empty, or [self.goOn] false, the loop is left without an error and the
    end hooks are called in the order of registration. *)
Lemma loop_exit_calls_end_hooks (beh : Behaviour) (e : SimEngine) (fuel : nat) :
  events e = [] \/ goOn e = false ->
  Forall (inert beh) (endCb e) ->
  (List.length (endCb e) + 2 <= fuel)%nat ->
  exec beh fuel AtLoop e = mkTrace (map CallEnd (endCb e)) Finished e.
Proof.
  intros H Idl Fuel.
  assert (E : exec beh (S (S (List.length (endCb e)))) AtLoop e
              = mkTrace (map CallEnd (endCb e)) Finished e).
  { rewrite exec_unfold.
    assert (St : step beh AtLoop e = ([], Next (AtEnd 0) e)).
    { cbn [step]. destruct (goOn e); [|reflexivity].
      destruct H as [H|H]; [now rewrite H|discriminate]. }
    rewrite St. cbn [fst snd].
    rewrite (end_hooks_called beh e Idl (List.length (endCb e)) 0) by lia.
    reflexivity. }
  rewrite (exec_enough_fuel beh (S (S (List.length (endCb e))))); auto.
  - intros k'. rewrite E. discriminate.
  - lia.
Qed.

(** C6 on a run whose last queued event is dispatched: after the call,
    [self.events[0]] is read on the empty list; the run ends on an
    [IndexError] and the registered end hook is never called. *)
Theorem run_after_last_event :
  let t := run idle 10 last_event in
  calls t = [CallEvent 3 (mkEvent 3 0 (UserCb 1) (mote_tag 1 "app") [])]
  /\ exit t = Raised IndexError
  /\ events (final t) = []
  /\ endCb (final t) = [UserCb 8]
  /\ end_hooks (calls t) = [].
Proof. vm_compute. repeat split. Qed.

(** The same slip on the forced end: when the end-of-simulation event is
    the last one queued, [_actionEndSim] clears [goOn] but the test of
    [while True] comes first. *)
Example forced_end_on_last_event :
  let t := run idle 10 short_run in
  calls t = [CallEvent 4 (mkEvent 4 0 ActionEndSim tag_endSim [])]
  /\ exit t = Raised IndexError
  /\ goOn (final t) = false
  /\ end_hooks (calls t) = [].
Proof. vm_compute. repeat split. Qed.

(** With a later event still queued the forced end is a normal one. *)
Example forced_end_with_later_event :
  let t := run idle 10
               (set_events [mkEvent 6 0 (UserCb 1) (mote_tag 1 "app") []] short_run) in
  dispatched (calls t) = [(4, mkEvent 4 0 ActionEndSim tag_endSim [])]
  /\ exit t = Finished
  /\ end_hooks (calls t) = [UserCb 8].
Proof. vm_compute. repeat split. Qed.

(* ===================================================================== *)
(** * Pause and resume *)
(* ===================================================================== *)




(* ===================================================================== *)
(** * Events without a tag *)
(* ===================================================================== *)




(* ===================================================================== *)
(** * The singleton *)
(* ===================================================================== *)

Lemma length_update (r : nat) (o : Singleton.Instance) (h : list Singleton.Instance) :
  List.length (Singleton.update r o h) = List.length h.
Proof.
  revert r; induction h as [|x h IH]; intros [|r]; simpl; auto.
Qed.

Lemma nth_update (r : nat) (o d : Singleton.Instance) (h : list Singleton.Instance) :
  (r < List.length h)%nat -> nth r (Singleton.update r o h) d = o.
Proof.
  revert r; induction h as [|x h IH]; intros [|r] L; simpl in *; try lia; auto.
  apply IH. lia.
Qed.

Lemma update_update (r : nat) (o1 o2 : Singleton.Instance) (h : list Singleton.Instance) :
  Singleton.update r o2 (Singleton.update r o1 h) = Singleton.update r o2 h.
Proof.
  revert r; induction h as [|x h IH]; intros [|r]; simpl; auto.
  now rewrite IH.
Qed.

(** An initialised reference lies inside the heap. *)
Lemma engine_of_in_heap (p : Singleton.Process) (r : Singleton.Ref) (e : SimEngine) :
  Singleton.engine_of p r = Some e -> (r < List.length (Singleton.heap p))%nat.
Proof.
  unfold Singleton.engine_of, Singleton.get. intros H.
  destruct (Nat.lt_ge_cases r (List.length (Singleton.heap p))) as [L|L]; [exact L|].
  rewrite nth_overflow in H by exact L. discriminate.
Qed.

(** [destroy] empties the dictionary of the instance, stops the
    propagation singleton and leaves the class attributes as they were. *)
Lemma destroy_effect (p : Singleton.Process) (r : Singleton.Ref) (e : SimEngine) :
  Singleton.engine_of p r = Some e ->
  Singleton.destroy p r
  = (None,
     Singleton.mkProcess (Singleton.cls_instance p) (Singleton.cls_init p)
       (Singleton.update r Singleton.empty_dict (Singleton.heap p)) false).
Proof.
  intros H. unfold Singleton.destroy. unfold Singleton.engine_of in H.
  rewrite H. unfold Singleton.put. cbn [Singleton.cls_instance Singleton.cls_init
                                         Singleton.heap Singleton.propagation].
  now rewrite !update_update.
Qed.

(** C8 on the code: [destroy] clears the dictionary of the instance, but
    the class attribute [_instance] still refers to the destroyed object
    (the assignment [self._instance = None] made an instance attribute,
    which [del self.__dict__] then dropped), so the next [SimEngine()]
    returns this same object; [__init__] runs again on it, and the engine
    is the one the motes' boot calls make of a fresh one: the clock is 0
    and, when the motes schedule nothing, the queue is empty. *)
Theorem destroy_keeps_registry_slot (p : Singleton.Process) (r : Singleton.Ref)
        (e : SimEngine) (s : SimSettings) (boot : list Action) :
  Singleton.cls_instance p = Some r ->
  Singleton.cls_init p = false ->
  Singleton.engine_of p r = Some e ->
  let p' := snd (Singleton.destroy p r) in
  let again := Singleton.construct s boot p' false in
  fst (Singleton.destroy p r) = None
  /\ Singleton.get p' r = Singleton.empty_dict
  /\ Singleton.cls_instance p' = Some r
  /\ snd again = r
  /\ Singleton.engine_of (snd (fst again)) r
     = Some (res_engine (do_actions (init_engine s) boot))
  /\ asn (res_engine (do_actions (init_engine s) boot)) = 0
  /\ (boot = [] -> events (res_engine (do_actions (init_engine s) boot)) = []).
Proof.
  intros Slot Cl En p' again.
  pose proof (engine_of_in_heap p r e En) as L.
  assert (D : Singleton.destroy p r
              = (None,
                 Singleton.mkProcess (Singleton.cls_instance p) (Singleton.cls_init p)
                   (Singleton.update r Singleton.empty_dict (Singleton.heap p)) false))
    by (now apply destroy_effect with e).
  assert (G : Singleton.get p' r = Singleton.empty_dict).
  { unfold p'. rewrite D. unfold Singleton.get. cbn [snd Singleton.heap].
    now apply nth_update. }
  assert (C : Singleton.cls_instance p' = Some r)
    by (unfold p'; rewrite D; exact Slot).
  assert (I : Singleton.read_init p' r = false).
  { unfold Singleton.read_init. rewrite G. cbn [Singleton.i_init Singleton.empty_dict].
    unfold p'. rewrite D. exact Cl. }
  split; [now rewrite D|split; [exact G|split; [exact C|]]].
  unfold again, Singleton.construct, Singleton.new. rewrite C.
  unfold Singleton.init. rewrite I. cbn [andb negb].
  split; [reflexivity|split; [|split]].
  - assert (L' : (r < List.length (Singleton.heap p'))%nat)
      by (unfold p'; rewrite D; cbn [snd Singleton.heap]; now rewrite length_update).
    destruct (do_actions (init_engine s) boot) as [e1|x e1];
      cbn [fst snd res_engine]; unfold Singleton.engine_of, Singleton.get;
      cbn [Singleton.heap]; now rewrite nth_update.
  - apply do_actions_asn.
  - intros ->. reflexivity.
Qed.

Lemma destroy_keeps_registry_slot_witness :
  Singleton.cls_instance first_process = Some 0%nat
  /\ Singleton.cls_instance (snd (Singleton.destroy first_process 0%nat)) = Some 0%nat
  /\ snd (Singleton.construct sample_settings []
            (snd (Singleton.destroy first_process 0%nat)) false) = 0%nat.
Proof.
  split; [reflexivity|].
  pose proof (destroy_keeps_registry_slot first_process 0%nat fresh sample_settings []
                eq_refl eq_refl eq_refl) as H.
  exact (conj (proj1 (proj2 (proj2 H))) (proj1 (proj2 (proj2 (proj2 H))))).
Defined.

(** The singleton while it lives: a second [SimEngine()] returns the same
    object and does not run [__init__] again; after [destroy] the variant
    that requires an existing instance fails. *)
Example construct_twice :
  Singleton.construct sample_settings
    [DoScheduleAtAsn 5 (UserCb 1) (mote_tag 1 "app") 0 true []]
    first_process false
  = (None, first_process, 0%nat).
Proof. reflexivity. Qed.

Example construct_required_after_destroy :
  fst (fst (Singleton.construct sample_settings []
              (snd (Singleton.destroy first_process 0%nat)) true))
  = Some EnvironmentError.
Proof. reflexivity. Qed.

(* ===================================================================== *)
(** * Delays *)
(* ===================================================================== *)

Lemma to_frac_den_pos (f : float) (n d : Z) :
  PyFloat.to_frac f = Some (n, d) -> 0 < d.
Proof.
  unfold PyFloat.to_frac. destruct (Prim2SF f) as [s|s| |s m x]; try discriminate.
  - intros H. inversion H. lia.
  - destruct (0 <=? x) eqn:Q; intros H; inversion H; [lia|].
    apply Z.leb_gt in Q. rewrite Z.shiftl_1_l. apply Z.pow_pos_nonneg; lia.
Qed.

(** [int(f)] is the exact value of [f] cut toward zero. *)
Lemma to_int_frac (f : float) (n d : Z) :
  PyFloat.to_frac f = Some (n, d) -> PyFloat.to_int f = inr (Z.quot n d).
Proof.
  unfold PyFloat.to_frac, PyFloat.to_int.
  destruct (Prim2SF f) as [s|s| |s m x]; try discriminate.
  - intros H. inversion H. reflexivity.
  - destruct (0 <=? x) eqn:Q; intros H; inversion H; subst; clear H.
    + apply Z.leb_le in Q. rewrite Z.quot_1_r. f_equal.
      destruct s; [|reflexivity].
      rewrite !Z.shiftl_mul_pow2 by exact Q.
      change (Z.neg m) with (- Z.pos m). now rewrite Z.mul_opp_l.
    + apply Z.leb_gt in Q. f_equal.
      assert (P : 0 < 2 ^ (- x)) by (apply Z.pow_pos_nonneg; lia).
      rewrite Z.shiftl_1_l, Z.shiftr_div_pow2 by lia.
      destruct s.
      * change (Z.neg m) with (- Z.pos m). rewrite Z.quot_opp_l by lia.
        now rewrite Z.quot_div_nonneg by lia.
      * now rewrite Z.quot_div_nonneg by lia.
Qed.

Lemma to_int_no_frac (f : float) :
  PyFloat.to_frac f = None ->
  (Prim2SF f = SpecFloat.S754_nan /\ PyFloat.to_int f = inl ValueError)
  \/ (exists s, Prim2SF f = SpecFloat.S754_infinity s
                /\ PyFloat.to_int f = inl OverflowError).
Proof.
  unfold PyFloat.to_frac, PyFloat.to_int.
  destruct (Prim2SF f) as [s|s| |s m x]; try discriminate; intros _.
  - right. now exists s.
  - left. auto.
Qed.

Lemma equal_fractions_floor (n d M D : Z) :
  0 < d -> 0 < D -> n * D = d * M -> n / d = M / D.
Proof.
  intros Hd HD E.
  rewrite <- (Z.div_mul_cancel_r n d D) by lia.
  rewrite E. apply Z.div_mul_cancel_l; lia.
Qed.

(** C9, as the code has it: [scheduleIn] raises [ZeroDivisionError] on a
    slot duration of zero and [OverflowError] when the clock has no
    double; otherwise, with [sum] the double sum of the clock and the
    double quotient [delay / slotDuration], each rounded to nearest, it
    raises [ValueError] when [sum] is a NaN and [OverflowError] when it is
    infinite, and else calls [scheduleAtAsn] with the exact value of [sum]
    cut toward zero (its floor when [sum] is not negative) and the same
    callback, tag, priority, flag and arguments; a call that raises leaves
    the engine as it was.  When [sum] is exactly the clock plus
    [delay / slotDuration], is not negative, and the slot duration is
    positive, that time is the clock plus the floor of
    [delay / slotDuration]. *)
Theorem scheduleIn_time (e : SimEngine) (delay : float) (cb : Callback)
        (uniqueTag : option Tag) (priority : Z) (exceptCurrentASN : bool)
        (kwargs : Kwargs) :
  let slot := slotDuration (settings e) in
  let call := scheduleIn e delay cb uniqueTag priority exceptCurrentASN kwargs in
  (PrimFloat.eqb slot PrimFloat.zero = true -> call = Raise ZeroDivisionError e)
  /\ (PrimFloat.eqb slot PrimFloat.zero = false ->
      match PyFloat.of_int (asn e) with
      | inl err => err = OverflowError /\ call = Raise OverflowError e
      | inr clock =>
          let sum := PrimFloat.add clock (PrimFloat.div delay slot) in
          match PyFloat.to_frac sum with
          | Some (n, d) =>
              0 < d
              /\ call = scheduleAtAsn e (Z.quot n d) cb uniqueTag priority
                                      exceptCurrentASN kwargs
              /\ (0 <= n -> Z.quot n d = n / d)
          | None =>
              (Prim2SF sum = SpecFloat.S754_nan /\ call = Raise ValueError e)
              \/ (exists s, Prim2SF sum = SpecFloat.S754_infinity s
                            /\ call = Raise OverflowError e)
          end
      end)
  /\ (forall clock na da nb db n d,
         PrimFloat.eqb slot PrimFloat.zero = false ->
         PyFloat.of_int (asn e) = inr clock ->
         PyFloat.to_frac delay = Some (na, da) ->
         PyFloat.to_frac slot = Some (nb, db) ->
         0 < nb ->
         PyFloat.to_frac (PrimFloat.add clock (PrimFloat.div delay slot))
         = Some (n, d) ->
         0 <= n ->
         n * (nb * da) = d * (asn e * (nb * da) + na * db) ->
         spec_scheduleIn_asn e delay = Some (asn e + (na * db) / (nb * da))
         /\ call = scheduleAtAsn e (asn e + (na * db) / (nb * da)) cb uniqueTag
                                 priority exceptCurrentASN kwargs).
Proof.
  intros slot call.
  assert (Fin : forall clock n d,
             PrimFloat.eqb slot PrimFloat.zero = false ->
             PyFloat.of_int (asn e) = inr clock ->
             PyFloat.to_frac (PrimFloat.add clock (PrimFloat.div delay slot))
             = Some (n, d) ->
             call = scheduleAtAsn e (Z.quot n d) cb uniqueTag priority
                                  exceptCurrentASN kwargs).
  { intros clock n d Z0 Cl Fr. unfold call, scheduleIn, scheduleIn_asn, PyFloat.div.
    fold slot. rewrite Z0, Cl. now rewrite (to_int_frac _ n d Fr). }
  split; [|split].
  - intros Z0. unfold call, scheduleIn, scheduleIn_asn, PyFloat.div. fold slot.
    now rewrite Z0.
  - intros Z0. destruct (PyFloat.of_int (asn e)) as [err|clock] eqn:Cl.
    + assert (err = OverflowError).
      { unfold PyFloat.of_int in Cl.
        destruct (PrimFloat.is_infinity _); now inversion Cl. }
      subst err. split; [reflexivity|].
      unfold call, scheduleIn, scheduleIn_asn, PyFloat.div. fold slot.
      now rewrite Z0, Cl.
    + cbv zeta.
      destruct (PyFloat.to_frac (PrimFloat.add clock (PrimFloat.div delay slot)))
        as [[n d]|] eqn:Fr.
      * split; [now apply to_frac_den_pos in Fr|split].
        -- now apply (Fin clock).
        -- intros Hn. apply Z.quot_div_nonneg; [exact Hn|].
           now apply to_frac_den_pos in Fr.
      * unfold call, scheduleIn, scheduleIn_asn, PyFloat.div. fold slot.
        rewrite Z0, Cl.
        destruct (to_int_no_frac _ Fr) as [[N T]|(s & I & T)]; rewrite T.
        -- left. auto.
        -- right. exists s. auto.
  - intros clock na da nb db n d Z0 Cl Fa Fb Pb Fr Hn Exact.
    pose proof (to_frac_den_pos _ _ _ Fa) as Pda.
    pose proof (to_frac_den_pos _ _ _ Fr) as Pd.
    assert (Q : Z.quot n d = asn e + (na * db) / (nb * da)).
    { rewrite Z.quot_div_nonneg by assumption.
      rewrite (equal_fractions_floor n d (asn e * (nb * da) + na * db) (nb * da));
        [|lia|nia|exact Exact].
      apply Z.div_add_l. nia. }
    split.
    + unfold spec_scheduleIn_asn, PyFloat.floor_quot. fold slot. rewrite Fa, Fb.
      replace (nb =? 0) with false by (symmetry; apply Z.eqb_neq; lia).
      reflexivity.
    + rewrite <- Q. now apply (Fin clock).
Qed.

Lemma scheduleIn_time_witness :
  spec_scheduleIn_asn one_second_slots 7%float = Some 107
  /\ scheduleIn one_second_slots 7%float (UserCb 1) None 0 true []
     = scheduleAtAsn one_second_slots 107 (UserCb 1) None 0 true [].
Proof.
  refine (proj2 (proj2 (scheduleIn_time one_second_slots 7%float (UserCb 1) None 0
                          true []))
                100%float 7881299347898368 1125899906842624
                4503599627370496 4503599627370496
                7529455627010048 70368744177664
                eq_refl eq_refl eq_refl eq_refl eq_refl eq_refl _ eq_refl).
  intros H. discriminate H.
Defined.

(** C9, as the claim has it, fails: with the clock at 100, a slot of 10 ms
    and a delay of 290 ms, the floor of the quotient is 28 (the double
    quotient is just below 29) and the claim's time is 128, but the sum
    [100 + 28.99...] rounds to 129 and the event is scheduled at 129. *)
Lemma scheduleIn_not_clock_plus_floor :
  spec_scheduleIn_asn at_100 delay_290ms = Some 128
  /\ scheduleIn_asn at_100 delay_290ms = inr 129
  /\ scheduleIn at_100 delay_290ms (UserCb 1) None 0 true []
     <> scheduleAtAsn at_100 128 (UserCb 1) None 0 true [].
Proof.
  split; [vm_compute; reflexivity|split; [vm_compute; reflexivity|]].
  intros H. apply (f_equal (fun r => events (res_engine r))) in H.
  vm_compute in H. discriminate.
Qed.

(** The same with inputs that are doubles as written: the largest double
    below 3 over a slot of one second, at clock 100, gives 103 and not
    [100 + 2]. *)
Example scheduleIn_rounds_the_sum :
  spec_scheduleIn_asn one_second_slots below_three = Some 102
  /\ scheduleIn_asn one_second_slots below_three = inr 103.
Proof. split; vm_compute; reflexivity. Qed.

(** Where no rounding occurs the two agree: 7 s at clock 100. *)
Example scheduleIn_exact :
  scheduleIn_asn one_second_slots 7%float = inr 107
  /\ spec_scheduleIn_asn one_second_slots 7%float = Some 107.
Proof. split; vm_compute; reflexivity. Qed.

(* ===================================================================== *)
(** * Worked runs *)
(* ===================================================================== *)

(** The dispatch order is (3,0), (5,0), (5,1) and the clock at the calls
    is 3, 5, 5. *)
Example spec_example_order :
  firstn 3 (dispatched (calls (run idle 9 spec_example)))
  = [ (3, mkEvent 3 0 (UserCb 3) (mote_tag 3 "app") []);
      (5, mkEvent 5 0 (UserCb 1) (mote_tag 1 "app") []);
      (5, mkEvent 5 1 (UserCb 2) (mote_tag 2 "app") []) ].
Proof. vm_compute. reflexivity. Qed.

(** With a pause at 5 the run waits on the semaphore when the batch of 5
    calls the sentinel, which stands after the event of priority 0 and
    before the one of priority 1; after [play] it goes on with that event
    and the one at 20. *)
Example pause_then_play :
  let t := run idle 30 spec_example_paused in
  exit t = Waiting (AtGate AtBatch)
  /\ simPaused (final t) = true
  /\ asn (final t) = 5
  /\ map ev_asn (events (final t)) = [5; 20]
  /\ map fst (dispatched (calls (resume idle 30 t))) = [3; 5; 5; 5; 20]
  /\ simPaused (final (resume idle 30 t)) = false
  /\ pauseSem (final (resume idle 30 t)) = 0%nat.
Proof. vm_compute. repeat split. Qed.

(* ===================================================================== *)
(** * Further properties of the queue operations *)
(* ===================================================================== *)

Lemma removeEvent_as_filter (e : SimEngine) (t : option Tag) (x : bool) :
  removeEvent e t x
  = set_events (filter (fun ev => negb (removable (asn e) t x ev)) (events e)) e.
Proof.
  unfold removeEvent. rewrite removeEvent_loop_filter by lia. reflexivity.
Qed.

Lemma filter_twice (f : Event -> bool) (l : list Event) :
  filter f (filter f l) = filter f l.
Proof.
  induction l as [|ev l IH]; simpl; [reflexivity|].
  destruct (f ev) eqn:F; simpl; [rewrite F; f_equal|]; exact IH.
Qed.

Lemma filter_weaker (f g : Event -> bool) (l : list Event) :
  (forall ev, f ev = true -> g ev = true) ->
  filter f (filter g l) = filter f l.
Proof.
  intros H. induction l as [|ev l IH]; simpl; [reflexivity|].
  destruct (g ev) eqn:G; simpl.
  - destruct (f ev); [f_equal|]; exact IH.
  - destruct (f ev) eqn:F; [|exact IH]. apply H in F. congruence.
Qed.

Lemma filter_insert_sorted_out (f : Event -> bool) (x : Event) (l : list Event) :
  f x = false -> filter f (insert_sorted x l) = filter f l.
Proof.
  intros Fx. destruct (insert_sorted_split x l) as (l1 & l2 & -> & -> & _).
  rewrite !filter_app. simpl. now rewrite Fx.
Qed.

Lemma tag_eqb_neq (a b : option Tag) : tag_eqb a b = false -> a <> b.
Proof. intros H ->. rewrite tag_eqb_refl in H. discriminate. Qed.

(** X1: [removeEvent] only takes events out of the queue, a second call
    with the same arguments changes nothing, and with [exceptCurrentASN]
    false no event with the tag is left. *)
Theorem removeEvent_idempotent (e : SimEngine) (t : option Tag) (x : bool) :
  removeEvent (removeEvent e t x) t x = removeEvent e t x
  /\ (List.length (events (removeEvent e t x)) <= List.length (events e))%nat
  /\ (forall ev, In ev (events (removeEvent e t x)) -> In ev (events e))
  /\ (forall ev, In ev (events (removeEvent e t false)) -> ev_tag ev <> t).
Proof.
  split; [|split; [|split]].
  - rewrite (removeEvent_as_filter (removeEvent e t x)).
    rewrite asn_removeEvent, events_removeEvent, filter_twice.
    now rewrite (removeEvent_as_filter e).
  - rewrite events_removeEvent. apply filter_length_le.
  - intros ev I. rewrite events_removeEvent in I. now apply filter_In in I.
  - intros ev I. rewrite events_removeEvent in I. apply filter_In in I.
    destruct I as [_ R]. unfold removable in R. simpl in R.
    rewrite andb_true_r in R. apply negb_true_iff in R. now apply tag_eqb_neq.
Qed.

(** X2: scheduling with a tag and then cancelling by that tag (current
    events included) leaves the engine as cancelling alone would: the
    event comes out again and nothing else is lost by the detour. *)
Theorem schedule_then_cancel (e : SimEngine) (a : Z) (cb : Callback) (t : Tag)
        (priority : Z) (x : bool) (kwargs : Kwargs) :
  a > asn e ->
  exists e',
    scheduleAtAsn e a cb (Some t) priority x kwargs = Ok e'
    /\ removeEvent e' (Some t) false = removeEvent e (Some t) false.
Proof.
  intros Ha. rewrite scheduleAtAsn_events by exact Ha. cbn [truthy].
  eexists. split; [reflexivity|].
  rewrite !removeEvent_as_filter. cbn [events set_events asn].
  rewrite filter_insert_sorted_out.
  - rewrite filter_weaker; [reflexivity|].
    intros ev H. unfold removable in *. cbn [andb negb] in H.
    rewrite andb_true_r in H. apply negb_true_iff in H. now rewrite H.
  - unfold removable. cbn [ev_tag andb negb]. now rewrite tag_eqb_refl.
Qed.

Lemma schedule_then_cancel_witness :
  12 > asn busy
  /\ exists e',
      scheduleAtAsn busy 12 (UserCb 7) (mote_tag 1 "app") 0 true [] = Ok e'
      /\ removeEvent e' (mote_tag 1 "app") false
         = removeEvent busy (mote_tag 1 "app") false.
Proof.
  split; [reflexivity|].
  exact (schedule_then_cancel busy 12 (UserCb 7) (OInt 1, "app"%string) 0 true []
           eq_refl).
Defined.

(** X3: a call of a public method that raises leaves the queue, the
    clock, the flags and the hooks as they were; the engine is the same
    but for [asnEndExperiment], which [terminateSimulation] sets before
    the assertion. *)
Theorem failed_call_keeps_engine (e e' : SimEngine) (act : Action) (err : Exn) :
  do_action e act = Raise err e' ->
  e' = set_asnEndExperiment (asnEndExperiment e') e
  /\ ((forall d, act <> DoTerminateSimulation d) -> e' = e).
Proof.
  assert (eta : forall s, s = set_asnEndExperiment (asnEndExperiment s) s)
    by (intros s; now destruct s).
  destruct act as [a cb t p x kw|d cb t p x kw|t x|cb|cb|d|a|];
    cbn [do_action]; intros H; try discriminate.
  - apply scheduleAtAsn_raise in H. destruct H as (_ & _ & ->). auto.
  - unfold scheduleIn in H. destruct (scheduleIn_asn e d) as [x0|a0].
    + inversion H; subst. auto.
    + apply scheduleAtAsn_raise in H. destruct H as (_ & _ & ->). auto.
  - unfold terminateSimulation in H.
    apply scheduleAtAsn_raise in H. destruct H as (_ & _ & ->).
    split; [reflexivity|]. intros N. now contradiction (N d).
  - unfold pauseAtAsn in H. destruct (simPaused e); cbn [negb] in H; [discriminate|].
    apply scheduleAtAsn_raise in H. destruct H as (_ & _ & ->). auto.
Qed.

Lemma failed_call_keeps_engine_witness :
  do_action busy (DoScheduleAtAsn 5 (UserCb 7) (mote_tag 1 "app") 0 false [])
  = Raise AssertionError busy
  /\ busy = set_asnEndExperiment (asnEndExperiment busy) busy.
Proof.
  split; [reflexivity|].
  exact (proj1 (failed_call_keeps_engine busy busy
                  (DoScheduleAtAsn 5 (UserCb 7) (mote_tag 1 "app") 0 false [])
                  AssertionError eq_refl)).
Defined.

Lemma do_action_goOn (e : SimEngine) (act : Action) :
  goOn (res_engine (do_action e act)) = goOn e.
Proof.
  assert (Sched : forall e1 a cb t p x kw,
             goOn (res_engine (scheduleAtAsn e1 a cb t p x kw)) = goOn e1).
  { intros e1 a cb t p x kw.
    destruct (scheduleAtAsn e1 a cb t p x kw) as [e2|err e2] eqn:H; simpl.
    - apply scheduleAtAsn_ok in H. now destruct H as [_ ->].
    - apply scheduleAtAsn_raise in H. now destruct H as (_ & _ & ->). }
  destruct act as [a cb t p x kw|d cb t p x kw|t x|cb|cb|d|a|];
    cbn [do_action res_engine]; auto.
  - unfold scheduleIn. destruct (scheduleIn_asn e d); [reflexivity|apply Sched].
  - unfold terminateSimulation. now rewrite Sched.
  - unfold pauseAtAsn. destruct (simPaused e); [reflexivity|apply Sched].
  - unfold play, _actionResumeSim. now destruct (simPaused e).
Qed.

Lemma do_actions_goOn (acts : list Action) :
  forall e, goOn (res_engine (do_actions e acts)) = goOn e.
Proof.
  induction acts as [|act acts IH]; intros e; simpl; [reflexivity|].
  pose proof (do_action_goOn e act) as G.
  destruct (do_action e act) as [e1|x e1]; simpl in *; [|exact G].
  now rewrite IH.
Qed.

(** X4: no public method and no collaborator callback, whatever it calls,
    changes [goOn]; [_actionEndSim] clears it, in a direct call and when
    the batch calls it as the callback of an event, leaving the rest of
    the engine alone; and once [goOn] is false no call sets it again. *)
Theorem only_actionEndSim_clears_goOn (beh : Behaviour) (cb : Callback)
        (kw : Kwargs) (e : SimEngine) :
  (forall act, goOn (res_engine (do_action e act)) = goOn e)
  /\ (cb <> ActionEndSim -> goOn (invoked_engine (invoke beh cb kw e)) = goOn e)
  /\ (goOn e = false -> goOn (invoked_engine (invoke beh cb kw e)) = false)
  /\ invoke beh ActionEndSim [] e = Returned (set_goOn false e)
  /\ goOn (invoked_engine (invoke beh ActionEndSim [] e)) = false
  /\ (forall ev rest,
         events e = ev :: rest -> ev_asn ev = asn e ->
         ev_cb ev = ActionEndSim -> ev_kwargs ev = [] ->
         step beh AtBatch e
         = ([CallEvent (asn e) ev],
            Next AtBatch (set_goOn false (set_events rest e)))).
Proof.
  split; [intros act; apply do_action_goOn|].
  assert (U : forall id, goOn (invoked_engine (invoke beh (UserCb id) kw e)) = goOn e).
  { intros id. simpl. pose proof (do_actions_goOn (beh id kw e) e) as G.
    now destruct (do_actions e (beh id kw e)). }
  split; [|split; [|split; [reflexivity|split; [reflexivity|]]]].
  - intros N. destruct cb as [| |id]; [congruence| |apply U].
    simpl. destruct (no_kwargs kw); [destruct (simPaused e)|]; reflexivity.
  - intros G. destruct cb as [| |id]; [| |now rewrite U].
    + simpl. now destruct (no_kwargs kw).
    + simpl. destruct (no_kwargs kw); [destruct (simPaused e)|]; exact G.
  - intros ev rest Ev T Cb Kw. cbn [step]. rewrite Ev, T, Z.eqb_refl, Cb, Kw.
    reflexivity.
Qed.

Lemma only_actionEndSim_clears_goOn_witness :
  goOn end_due = true
  /\ step idle AtBatch end_due
     = ([CallEvent 4 (mkEvent 4 0 ActionEndSim tag_endSim [])],
        Next AtBatch
             (set_goOn false
                (set_events [mkEvent 6 0 (UserCb 3) (mote_tag 3 "app") []] end_due))).
Proof.
  split; [reflexivity|].
  exact (proj2 (proj2 (proj2 (proj2 (proj2
           (only_actionEndSim_clears_goOn idle (UserCb 1) [] end_due)))))
           (mkEvent 4 0 ActionEndSim tag_endSim [])
           [mkEvent 6 0 (UserCb 3) (mote_tag 3 "app") []]
           eq_refl eq_refl eq_refl eq_refl).
Defined.



(* ===================================================================== *)
(** * Further properties of [run()] *)
(* ===================================================================== *)

Lemma prepend_nil (t : Trace) : prepend [] t = t.
Proof. now destruct t. Qed.

Lemma prepend_cons (c : Call) (cs : list Call) (t : Trace) :
  prepend [c] (prepend cs t) = prepend (c :: cs) t.
Proof. reflexivity. Qed.

(** The [for] over [self.startCb] calls every hook from index [i] on and
    goes on to the loop. *)
Lemma start_hooks_from (beh : Behaviour) (e : SimEngine) (fuel : nat) :
  Forall (inert beh) (startCb e) ->
  forall n i,
    (List.length (startCb e) - i = n)%nat ->
    exec beh (S (n + fuel)) (AtStart i) e
    = prepend (map CallStart (skipn i (startCb e))) (exec beh fuel AtLoop e).
Proof.
  intros Idl. induction n as [|n IH]; intros i L;
    cbn [Nat.add]; rewrite exec_unfold; cbn [step].
  - assert (N : nth_error (startCb e) i = None) by (apply nth_error_None; lia).
    rewrite N. cbn [fst snd]. rewrite skipn_all2 by lia. reflexivity.
  - destruct (nth_error (startCb e) i) as [cb|] eqn:N.
    + rewrite invoke_inert
        by (rewrite Forall_forall in Idl; apply Idl; eapply nth_error_In; eauto).
      cbn [after_call fst snd]. rewrite (IH (S i)) by lia.
      rewrite (skipn_nth_error _ _ _ N). reflexivity.
    + apply nth_error_None in N. lia.
Qed.

(** X6: when the join process is simulated, so that no end-of-simulation
    event is added, [run()] first calls every start hook, in the order of
    registration, before it looks at the queue; the hooks here leave the
    engine alone. *)
Theorem run_calls_start_hooks_first (beh : Behaviour) (e : SimEngine) (fuel : nat) :
  secjoin_enabled (settings e) = true ->
  Forall (inert beh) (startCb e) ->
  run beh (S (List.length (startCb e) + fuel)) e
  = prepend (map CallStart (startCb e)) (exec beh fuel AtLoop e).
Proof.
  intros J Idl. unfold run. rewrite J. cbn [negb].
  now rewrite (start_hooks_from beh e fuel Idl (List.length (startCb e)) 0) by lia.
Qed.

Lemma run_calls_start_hooks_first_witness :
  run idle 7 hooked
  = prepend [CallStart (UserCb 1); CallStart (UserCb 2)] (exec idle 4 AtLoop hooked).
Proof.
  refine (run_calls_start_hooks_first idle hooked 4 eq_refl _).
  repeat constructor; eexists; split; reflexivity.
Defined.

(** X7: when the loop finds the queue empty or [goOn] false, the run ends
    without an error after calling every end hook, in the order of
    registration, and the hooks that leave the engine alone leave it as
    the loop did. *)
Theorem run_ends_with_end_hooks (beh : Behaviour) (e : SimEngine) (fuel : nat) :
  events e = [] \/ goOn e = false ->
  Forall (inert beh) (endCb e) ->
  (List.length (endCb e) + 2 <= fuel)%nat ->
  let t := exec beh fuel AtLoop e in
  calls t = map CallEnd (endCb e) /\ exit t = Finished /\ final t = e.
Proof.
  intros H Idl Fuel.
  assert (E : exec beh (S (S (List.length (endCb e)))) AtLoop e
              = mkTrace (map CallEnd (endCb e)) Finished e).
  { rewrite exec_unfold.
    assert (St : step beh AtLoop e = ([], Next (AtEnd 0) e)).
    { cbn [step]. destruct (goOn e); [|reflexivity].
      destruct H as [H|H]; [now rewrite H|discriminate]. }
    rewrite St. cbn [fst snd].
    rewrite (end_hooks_called beh e Idl (List.length (endCb e)) 0) by lia.
    reflexivity. }
  cbv zeta. rewrite (exec_enough_fuel beh (S (S (List.length (endCb e))))).
  - rewrite E. auto.
  - intros k'. rewrite E. discriminate.
  - lia.
Qed.

Lemma run_ends_with_end_hooks_witness :
  goOn hooked_stopped = false
  /\ calls (exec idle 4 AtLoop hooked_stopped)
     = [CallEnd (UserCb 3); CallEnd (UserCb 4)]
  /\ exit (exec idle 4 AtLoop hooked_stopped) = Finished.
Proof.
  split; [reflexivity|].
  assert (Idl : Forall (inert idle) (endCb hooked_stopped))
    by (repeat constructor; eexists; split; reflexivity).
  pose proof (run_ends_with_end_hooks idle hooked_stopped 4
                (or_intror eq_refl) Idl (le_n 4)) as H.
  exact (conj (proj1 H) (proj1 (proj2 H))).
Defined.

Lemma invoke_idle_failure (cb : Callback) (kw : Kwargs) (e e' : SimEngine) (x : Exn) :
  invoke idle cb kw e = Failed x e' -> x = TypeError.
Proof.
  destruct cb; simpl.
  - destruct (no_kwargs kw); intros H; inversion H; auto.
  - destruct (no_kwargs kw); [destruct (simPaused e)|]; intros H; inversion H; auto.
  - discriminate.
Qed.

Lemma after_call_idle_not_assertion (k : Loc) (cb : Callback) (kw : Kwargs)
      (e e' : SimEngine) :
  after_call k (invoke idle cb kw e) <> Stop (Raised AssertionError) e'.
Proof.
  destruct (invoke idle cb kw e) as [e1|x e1|e1] eqn:I; simpl; try discriminate.
  apply invoke_idle_failure in I. subst. discriminate.
Qed.

(** X8: the test [assert self.events[0][0] >= self.asn] of the loop never
    fails on a queue that is sorted and lies after the clock, as every
    queue built through [scheduleAtAsn] is; with callbacks that call no
    method, a run from such a state never ends on an [AssertionError]. *)
Theorem loop_assertion_holds (fuel : nat) :
  forall (k : Loc) (e : SimEngine),
    wf k e -> exit (exec idle fuel k e) <> Raised AssertionError.
Proof.
  induction fuel as [|fuel IH]; intros k e W; [discriminate|].
  rewrite exec_unfold.
  pose proof (step_keeps_wf idle k e W) as KW.
  destruct (snd (step idle k e)) as [k' e'|x e'] eqn:Sn.
  - unfold prepend. cbn [exit]. now apply IH.
  - cbn [exit]. intros ->.
    destruct k as [i| | |k1|i]; cbn [step] in Sn.
    + destruct (nth_error (startCb e) i); cbn [snd] in Sn; [|discriminate].
      now apply after_call_idle_not_assertion in Sn.
    + destruct (goOn e); cbn [negb snd] in Sn; [|discriminate].
      destruct (events e) as [|ev rest] eqn:Ev; cbn [snd] in Sn; [discriminate|].
      destruct (ev_tag ev) as [[o name]|]; cbn [snd] in Sn; [|discriminate].
      destruct W as [_ F]. rewrite Ev in F.
      assert (G : (ev_asn ev >=? asn e) = true)
        by (rewrite Z.geb_leb; apply Z.leb_le; inversion F; lia).
      rewrite G, andb_false_r in Sn. discriminate.
    + destruct (events e) as [|ev rest]; cbn [snd] in Sn; [discriminate|].
      destruct (negb (ev_asn ev =? asn e)); cbn [snd] in Sn; [discriminate|].
      now apply after_call_idle_not_assertion in Sn.
    + destruct (pauseSem e); cbn [snd] in Sn; discriminate.
    + destruct (nth_error (endCb e) i); cbn [snd] in Sn; [|discriminate].
      now apply after_call_idle_not_assertion in Sn.
Qed.

Lemma loop_assertion_holds_witness :
  wf (AtStart 0) spec_example
  /\ exit (exec idle 9 (AtStart 0) spec_example) <> Raised AssertionError.
Proof.
  assert (W : wf (AtStart 0) spec_example).
  { split; repeat constructor; unfold key_le; simpl; lia. }
  exact (conj W (loop_assertion_holds 9 (AtStart 0) spec_example W)).
Defined.

Lemma invoke_idle_cases (cb : Callback) (kw : Kwargs) (e : SimEngine) :
  invoke idle cb kw e = Returned e
  \/ (cb = ActionEndSim /\ no_kwargs kw = true
      /\ invoke idle cb kw e = Returned (_actionEndSim e))
  \/ invoke idle cb kw e = Acquire (set_simPaused true e)
  \/ invoke idle cb kw e = Failed TypeError e.
Proof.
  destruct cb; simpl.
  - destruct (no_kwargs kw); auto.
  - destruct (no_kwargs kw); [destruct (simPaused e)|]; auto.
  - auto.
Qed.

(** While the end-of-simulation event [s] is pending in a sorted queue, or
    once [goOn] is false, nothing is dispatched at a clock after its
    time. *)
Lemma end_sim_bounds_exec (s : Event) (fuel : nat) :
  ev_cb s = ActionEndSim -> ev_kwargs s = [] ->
  forall (k : Loc) (e : SimEngine),
    (sorted_queue (events e) /\ In s (events e))
    \/ (goOn e = false /\ (in_batch k = true -> asn e <= ev_asn s)) ->
    Forall (fun ce => fst ce <= ev_asn s) (dispatched (calls (exec idle fuel k e))).
Proof.
  intros Cb Kw. induction fuel as [|fuel IH]; intros k e Inv; [constructor|].
  rewrite exec_unfold.
  assert (Keep : forall cb kw e0,
             (sorted_queue (events e0) /\ In s (events e0)) \/ goOn e0 = false ->
             (sorted_queue (events (invoked_engine (invoke idle cb kw e0)))
              /\ In s (events (invoked_engine (invoke idle cb kw e0))))
             \/ goOn (invoked_engine (invoke idle cb kw e0)) = false).
  { intros cb kw e0 H.
    destruct (invoke_idle_cases cb kw e0) as [I|[(_ & _ & I)|[I|I]]]; rewrite I;
      cbn [invoked_engine]; auto. }
  destruct k as [i| | |k1|i]; cbn [step].
  - (* start hooks *)
    destruct (nth_error (startCb e) i) as [cb|]; cbn [fst snd].
    + assert (K := Keep cb [] e
                     (match Inv with or_introl a => or_introl a
                                   | or_intror b => or_intror (proj1 b) end)).
      destruct (invoke idle cb [] e) as [e1|x e1|e1]; cbn [after_call invoked_engine] in *;
        try (constructor; fail); unfold prepend; cbn [calls app dispatched];
        apply IH; (destruct K as [K|K]; [left; exact K|right; split; [exact K|discriminate]]).
    + unfold prepend; cbn [calls app]. apply IH.
      destruct Inv as [A|[B _]]; [left; exact A|right; split; [exact B|discriminate]].
  - (* head of the loop *)
    destruct (goOn e) eqn:G; cbn [negb fst snd].
    + destruct Inv as [[Srt In_s]|[B _]]; [|discriminate].
      destruct (events e) as [|ev rest] eqn:Ev; [destruct In_s|]. cbn [fst snd].
      destruct (ev_tag ev) as [[o name]|]; cbn [fst snd]; [|constructor].
      destruct (negb (is_pause_name name) && negb (ev_asn ev >=? asn e));
        cbn [fst snd]; [constructor|].
      unfold prepend; cbn [calls app]. apply IH. left.
      cbn [events set_asn]. rewrite Ev. auto.
    + unfold prepend; cbn [calls app]. apply IH. right. split; [exact G|discriminate].
  - (* head of the batch *)
    destruct (events e) as [|ev rest] eqn:Ev; cbn [fst snd]; [constructor|].
    destruct (ev_asn ev =? asn e) eqn:Q; cbn [negb fst snd].
    + apply Z.eqb_eq in Q.
      assert (Bound : asn e <= ev_asn s).
      { destruct Inv as [[Srt In_s]|[_ B]]; [|now apply B].
        rewrite <- Q. destruct In_s as [->|In_s]; [lia|].
        pose proof (sorted_queue_head ev rest Srt) as F.
        rewrite Forall_forall in F. now apply F. }
      assert (Next_inv :
                (sorted_queue (events (invoked_engine
                                         (invoke idle (ev_cb ev) (ev_kwargs ev) (set_events rest e))))
                 /\ In s (events (invoked_engine
                                    (invoke idle (ev_cb ev) (ev_kwargs ev) (set_events rest e)))))
                \/ goOn (invoked_engine
                           (invoke idle (ev_cb ev) (ev_kwargs ev) (set_events rest e))) = false).
      { destruct Inv as [[Srt In_s]|[B _]].
        - destruct In_s as [<-|In_s].
          + right. rewrite Cb, Kw. reflexivity.
          + apply Keep. left. cbn [events set_events].
            split; [now apply sorted_queue_tail in Srt|exact In_s].
        - apply Keep. right. exact B. }
      pose proof (invoke_asn idle (ev_cb ev) (ev_kwargs ev) (set_events rest e)) as A.
      cbn [asn set_events] in A.
      destruct (invoke idle (ev_cb ev) (ev_kwargs ev) (set_events rest e))
        as [e1|x e1|e1]; cbn [after_call invoked_engine] in *.
      * unfold prepend; cbn [calls app dispatched].
        constructor; [simpl; lia|]. apply IH.
        destruct Next_inv as [N|N]; [left; exact N|right; split; [exact N|intros _; lia]].
      * cbn [calls dispatched]. constructor; [simpl; lia|constructor].
      * unfold prepend; cbn [calls app dispatched].
        constructor; [simpl; lia|]. apply IH.
        destruct Next_inv as [N|N]; [left; exact N|right; split; [exact N|intros _; lia]].
    + unfold prepend; cbn [calls app]. apply IH.
      destruct Inv as [A|[B _]]; [left; rewrite Ev; exact A|right; split; [exact B|discriminate]].
  - (* the semaphore *)
    destruct (pauseSem e); cbn [fst snd]; [constructor|].
    unfold prepend; cbn [calls app]. apply IH.
    destruct Inv as [A|[B C]]; [left; exact A|right; split; [exact B|exact C]].
  - (* end hooks *)
    destruct (nth_error (endCb e) i) as [cb|]; cbn [fst snd]; [|constructor].
    assert (K := Keep cb [] e
                   (match Inv with or_introl a => or_introl a
                                 | or_intror b => or_intror (proj1 b) end)).
    destruct (invoke idle cb [] e) as [e1|x e1|e1]; cbn [after_call invoked_engine] in *;
      try (constructor; fail); unfold prepend; cbn [calls app dispatched];
      apply IH; (destruct K as [K|K]; [left; exact K|right; split; [exact K|discriminate]]).
Qed.

(** X9: in a run that does not simulate the join process, started on a
    sorted queue before the end time [slotframeLength *
    exec_numSlotframesPerRun], and whose callbacks call no method, no
    event is dispatched at a clock after the end time, however many events
    are queued beyond it. *)
Theorem run_stops_at_end_of_simulation (fuel : nat) (e : SimEngine) :
  secjoin_enabled (settings e) = false ->
  sorted_queue (events e) ->
  asn e < end_of_simulation e ->
  Forall (fun ce => fst ce <= end_of_simulation e)
         (dispatched (calls (run idle fuel e))).
Proof.
  intros J Srt Lt. unfold run. rewrite J. cbn [negb].
  fold (end_of_simulation e).
  rewrite scheduleAtAsn_events by lia. cbv zeta. cbn [truthy tag_endSim].
  apply (end_sim_bounds_exec (mkEvent (end_of_simulation e) 0 ActionEndSim tag_endSim []));
    try reflexivity.
  left. cbn [events set_events]. split.
  - apply sorted_queue_insert. rewrite events_removeEvent.
    now apply sorted_queue_filter.
  - apply In_insert_sorted. now left.
Qed.

Lemma run_stops_at_end_of_simulation_witness :
  map ev_asn (events beyond_the_end) = [2; 4; 6]
  /\ end_of_simulation beyond_the_end = 4
  /\ Forall (fun ce => fst ce <= end_of_simulation beyond_the_end)
            (dispatched (calls (run idle 20 beyond_the_end))).
Proof.
  split; [reflexivity|split; [reflexivity|]].
  apply (run_stops_at_end_of_simulation 20 beyond_the_end); [reflexivity| |reflexivity].
  repeat constructor; unfold key_le; simpl; lia.
Defined.

(** X10: when the batch calls the pause event on an engine that is not
    paused, the run waits on the semaphore at once, with [simPaused] set
    and the rest of the queue pending, events due at the same time
    included; after [play] it goes on from the engine as it would be had
    the event only been taken out: flag and semaphore are as before. *)
Theorem pause_blocks_until_play (beh : Behaviour) (e : SimEngine) (ev : Event)
        (rest : list Event) (fuel : nat) :
  events e = ev :: rest -> ev_asn ev = asn e ->
  ev_cb ev = ActionPauseSim -> ev_kwargs ev = [] ->
  simPaused e = false -> pauseSem e = 0%nat ->
  let t := exec beh (S (S fuel)) AtBatch e in
  calls t = [CallEvent (asn e) ev]
  /\ exit t = Waiting (AtGate AtBatch)
  /\ final t = set_simPaused true (set_events rest e)
  /\ resume beh (S fuel) t
     = prepend [CallEvent (asn e) ev] (exec beh fuel AtBatch (set_events rest e)).
Proof.
  intros Ev T Cb Kw P Sem.
  assert (E : exec beh (S (S fuel)) AtBatch e
              = mkTrace [CallEvent (asn e) ev] (Waiting (AtGate AtBatch))
                        (set_simPaused true (set_events rest e))).
  { rewrite exec_unfold. cbn [step]. rewrite Ev, T, Z.eqb_refl. cbn [negb fst snd].
    rewrite Cb, Kw. cbn [invoke no_kwargs simPaused set_events]. rewrite P.
    cbn [negb after_call]. rewrite exec_unfold. cbn [step pauseSem set_simPaused set_events].
    rewrite Sem. reflexivity. }
  cbv zeta. rewrite E. cbn [calls exit final].
  split; [reflexivity|split; [reflexivity|split; [reflexivity|]]].
  unfold resume. cbn [exit calls final].
  rewrite exec_unfold. unfold play, _actionResumeSim.
  cbn [step simPaused pauseSem set_simPaused set_pauseSem set_events fst snd].
  rewrite prepend_nil.
  match goal with
  | |- prepend _ (exec _ _ _ ?s) = _ =>
      replace s with (set_events rest e)
        by (destruct e; cbn in *; subst; reflexivity)
  end.
  reflexivity.
Qed.

Lemma pause_blocks_until_play_witness :
  events pause_due = [pause_sentinel 5]
  /\ exit (exec idle 3 AtBatch pause_due) = Waiting (AtGate AtBatch)
  /\ final (exec idle 3 AtBatch pause_due)
     = set_simPaused true (set_events [] pause_due).
Proof.
  split; [reflexivity|].
  pose proof (pause_blocks_until_play idle pause_due (pause_sentinel 5) [] 1
                eq_refl eq_refl eq_refl eq_refl eq_refl eq_refl) as H.
  exact (conj (proj1 (proj2 H)) (proj1 (proj2 (proj2 H)))).
Defined.

(* ===================================================================== *)
(** * Further properties of the singleton *)
(* ===================================================================== *)

Lemma get_new_object (p : Singleton.Process) :
  Singleton.cls_instance p = None ->
  Singleton.new p
  = (Singleton.mkProcess (Some (List.length (Singleton.heap p))) (Singleton.cls_init p)
       (Singleton.heap p ++ [Singleton.empty_dict]) (Singleton.propagation p),
     List.length (Singleton.heap p))
  /\ Singleton.get (fst (Singleton.new p)) (List.length (Singleton.heap p))
     = Singleton.empty_dict.
Proof.
  intros N. unfold Singleton.new. rewrite N. split; [reflexivity|].
  unfold Singleton.get. cbn [fst Singleton.heap].
  now rewrite app_nth2, Nat.sub_diag by lia.
Qed.

(** X11: the first [SimEngine()] on a process without an instance makes
    the object and initialises it; from then on every construction,
    whatever its arguments, returns the same object and leaves the process
    untouched, [__init__] returning at once, even when the first
    initialisation ended on an exception. *)
Theorem construct_once (s s' : SimSettings) (boot boot' : list Action)
        (p : Singleton.Process) (failIfNotInit : bool) :
  Singleton.cls_instance p = None ->
  Singleton.cls_init p = false ->
  let first := Singleton.construct s boot p false in
  snd first = List.length (Singleton.heap p)
  /\ Singleton.engine_of (snd (fst first)) (snd first)
     = Some (res_engine (do_actions (init_engine s) boot))
  /\ Singleton.construct s' boot' (snd (fst first)) failIfNotInit
     = (None, snd (fst first), snd first).
Proof.
  intros N Cl. cbv zeta.
  destruct (get_new_object p N) as [New Get]. rewrite New in Get. cbn [fst] in Get.
  set (r := List.length (Singleton.heap p)) in *.
  set (p1 := Singleton.mkProcess (Some r) (Singleton.cls_init p)
               (Singleton.heap p ++ [Singleton.empty_dict]) (Singleton.propagation p)) in *.
  assert (I : Singleton.read_init p1 r = false).
  { unfold Singleton.read_init. rewrite Get. exact Cl. }
  assert (L : (r < List.length (Singleton.heap p1))%nat).
  { unfold p1, r. cbn [Singleton.heap]. rewrite length_app. simpl. lia. }
  set (made := fun e1 : SimEngine =>
                 Singleton.mkProcess (Some r) (Singleton.cls_init p)
                   (Singleton.update r
                      (Singleton.mkInstance (Singleton.i_instance (Singleton.get p1 r))
                         (Some true) (Some e1)) (Singleton.heap p1)) true).
  assert (C : Singleton.construct s boot p false
              = (match do_actions (init_engine s) boot with
                 | Ok _ => None
                 | Raise x _ => Some x
                 end,
                 made (res_engine (do_actions (init_engine s) boot)), r)).
  { unfold Singleton.construct. rewrite New. unfold Singleton.init. rewrite I.
    cbn [andb negb]. now destruct (do_actions (init_engine s) boot). }
  rewrite C. cbn [fst snd].
  set (e1 := res_engine (do_actions (init_engine s) boot)).
  assert (G2 : Singleton.get (made e1) r
               = Singleton.mkInstance (Singleton.i_instance (Singleton.get p1 r))
                   (Some true) (Some e1)).
  { unfold Singleton.get, made. cbn [Singleton.heap]. now apply nth_update. }
  split; [reflexivity|split].
  - unfold Singleton.engine_of. now rewrite G2.
  - unfold Singleton.construct, Singleton.new.
    change (Singleton.cls_instance (made e1)) with (Some r).
    unfold Singleton.init, Singleton.read_init. rewrite G2.
    cbn [Singleton.i_init negb andb]. now rewrite andb_false_r.
Qed.

Lemma construct_once_witness :
  Singleton.cls_instance Singleton.boot_process = None
  /\ Singleton.construct sample_settings
       [DoScheduleAtAsn 5 (UserCb 1) (mote_tag 1 "app") 0 true []]
       first_process true
     = (None, first_process, 0%nat).
Proof.
  split; [reflexivity|].
  exact (proj2 (proj2 (construct_once sample_settings sample_settings []
                         [DoScheduleAtAsn 5 (UserCb 1) (mote_tag 1 "app") 0 true []]
                         Singleton.boot_process true eq_refl eq_refl))).
Defined.

(** X12: [SimEngine(failIfNotInit=True)] on a process without an instance
    raises [EnvironmentError], but [__new__] has by then made the object
    and stored it in the class: the slot holds an object that is not
    initialised, and the next plain [SimEngine()] initialises this same
    object. *)
Theorem require_existing_fails (s : SimSettings) (boot : list Action)
        (p : Singleton.Process) :
  Singleton.cls_instance p = None ->
  Singleton.cls_init p = false ->
  let r := List.length (Singleton.heap p) in
  let failed := Singleton.construct s boot p true in
  let again := Singleton.construct s boot (snd (fst failed)) false in
  failed
  = (Some EnvironmentError,
     Singleton.mkProcess (Some r) false (Singleton.heap p ++ [Singleton.empty_dict])
       (Singleton.propagation p),
     r)
  /\ Singleton.engine_of (snd (fst failed)) r = None
  /\ snd again = r
  /\ Singleton.engine_of (snd (fst again)) r
     = Some (res_engine (do_actions (init_engine s) boot)).
Proof.
  intros N Cl. cbv zeta.
  destruct (get_new_object p N) as [New Get]. rewrite New in Get. cbn [fst] in Get.
  set (r := List.length (Singleton.heap p)) in *.
  set (p1 := Singleton.mkProcess (Some r) (Singleton.cls_init p)
               (Singleton.heap p ++ [Singleton.empty_dict]) (Singleton.propagation p)) in *.
  assert (I : Singleton.read_init p1 r = false).
  { unfold Singleton.read_init. rewrite Get. exact Cl. }
  assert (F : Singleton.construct s boot p true = (Some EnvironmentError, p1, r)).
  { unfold Singleton.construct. rewrite New. unfold Singleton.init. now rewrite I. }
  rewrite F. cbn [fst snd].
  assert (L : (r < List.length (Singleton.heap p1))%nat).
  { unfold p1, r. cbn [Singleton.heap]. rewrite length_app. simpl. lia. }
  split; [unfold p1; now rewrite Cl|split; [|split]].
  - unfold Singleton.engine_of. now rewrite Get.
  - unfold Singleton.construct, Singleton.new. reflexivity.
  - unfold Singleton.construct, Singleton.new. cbn [Singleton.cls_instance p1].
    unfold Singleton.init. rewrite I. cbn [andb negb].
    destruct (do_actions (init_engine s) boot) as [e1|x e1];
      cbn [fst snd res_engine]; unfold Singleton.engine_of, Singleton.get;
      cbn [Singleton.heap]; now rewrite nth_update.
Qed.

Lemma require_existing_fails_witness :
  Singleton.cls_instance Singleton.boot_process = None
  /\ Singleton.construct sample_settings [] Singleton.boot_process true
     = (Some EnvironmentError,
        Singleton.mkProcess (Some 0%nat) false [Singleton.empty_dict] false,
        0%nat).
Proof.
  split; [reflexivity|].
  exact (proj1 (require_existing_fails sample_settings [] Singleton.boot_process
                  eq_refl eq_refl)).
Defined.

(** X13: a second [destroy()] on the same object finds no [propagation]
    attribute in the emptied dictionary, raises [AttributeError] and
    changes nothing. *)
Theorem destroy_twice (p : Singleton.Process) (r : Singleton.Ref) (e : SimEngine) :
  Singleton.engine_of p r = Some e ->
  Singleton.destroy (snd (Singleton.destroy p r)) r
  = (Some AttributeError, snd (Singleton.destroy p r)).
Proof.
  intros En. pose proof (engine_of_in_heap p r e En) as L.
  rewrite (destroy_effect p r e En). cbn [snd].
  unfold Singleton.destroy, Singleton.get. cbn [Singleton.heap].
  now rewrite nth_update.
Qed.

Lemma destroy_twice_witness :
  Singleton.engine_of first_process 0%nat = Some fresh
  /\ Singleton.destroy (snd (Singleton.destroy first_process 0%nat)) 0%nat
     = (Some AttributeError, snd (Singleton.destroy first_process 0%nat)).
Proof.
  split; [reflexivity|].
  exact (destroy_twice first_process 0%nat fresh eq_refl).
Defined.

(* ===================================================================== *)
(** * Further properties of the public methods and the hooks *)
(* ===================================================================== *)

(** X14: whatever public method is called, every event in the queue
    afterwards was pending before or is the one event the call schedules,
    due after the clock; the queue grows by one event at most. *)
Theorem new_events_lie_ahead (e : SimEngine) (act : Action) (ev : Event) :
  In ev (events (res_engine (do_action e act))) ->
  (In ev (events e) \/ (scheduled_event e act = Some ev /\ asn e < ev_asn ev))
  /\ (List.length (events (res_engine (do_action e act)))
      <= S (List.length (events e)))%nat.
Proof.
  intros I.
  destruct (do_action_effect e act) as (_ & _ & [[f E]|(ev' & f & Sc & L & E)]);
    rewrite E in *.
  - split.
    + left. now apply filter_In in I.
    + pose proof (filter_length_le f (events e)). lia.
  - split.
    + apply In_insert_sorted in I. destruct I as [->|I]; [right; auto|].
      left. now apply filter_In in I.
    + rewrite (Permutation_length (Permutation_insert_sorted ev' _)). simpl.
      pose proof (filter_length_le f (events e)). lia.
Qed.

Lemma new_events_lie_ahead_witness :
  In (mkEvent 12 0 (UserCb 7) None [])
     (events (res_engine (do_action busy (DoScheduleAtAsn 12 (UserCb 7) None 0 true []))))
  /\ (In (mkEvent 12 0 (UserCb 7) None []) (events busy)
      \/ (scheduled_event busy (DoScheduleAtAsn 12 (UserCb 7) None 0 true [])
          = Some (mkEvent 12 0 (UserCb 7) None [])
          /\ asn busy < ev_asn (mkEvent 12 0 (UserCb 7) None []))).
Proof.
  assert (I : In (mkEvent 12 0 (UserCb 7) None [])
                 (events (res_engine
                            (do_action busy (DoScheduleAtAsn 12 (UserCb 7) None 0 true [])))))
    by (vm_compute; tauto).
  exact (conj I (proj1 (new_events_lie_ahead busy _ _ I))).
Defined.

(** X15: the [for] over [self.startCb] reads the list as it is at each
    turn: a start hook, the last registered, that registers another hook
    has it called next, in the same run, before the loop starts. *)
Theorem start_hook_registers_hook (beh : Behaviour) (e : SimEngine) (i id : nat)
        (cb' : Callback) (fuel : nat) :
  nth_error (startCb e) i = Some (UserCb id) ->
  S i = List.length (startCb e) ->
  beh id [] e = [DoScheduleAtStart cb'] ->
  inert beh cb' ->
  exec beh (S (S (S fuel))) (AtStart i) e
  = prepend [CallStart (UserCb id); CallStart cb']
            (exec beh fuel AtLoop (scheduleAtStart e cb')).
Proof.
  intros N L B Idl.
  assert (N1 : nth_error (startCb (scheduleAtStart e cb')) (S i) = Some cb').
  { cbn [startCb scheduleAtStart set_startCb]. rewrite L.
    rewrite nth_error_app2, Nat.sub_diag by lia. reflexivity. }
  assert (N2 : nth_error (startCb (scheduleAtStart e cb')) (S (S i)) = None).
  { apply nth_error_None. cbn [startCb scheduleAtStart set_startCb].
    rewrite length_app. simpl. lia. }
  rewrite exec_unfold. cbn [step]. rewrite N. cbn [invoke]. rewrite B.
  cbn [do_actions do_action bind after_call fst snd].
  rewrite exec_unfold. cbn [step]. rewrite N1, invoke_inert by exact Idl.
  cbn [after_call fst snd].
  rewrite exec_unfold. cbn [step]. rewrite N2. cbn [fst snd].
  rewrite prepend_nil. reflexivity.
Qed.

Lemma start_hook_registers_hook_witness :
  exec beh_hook 5 (AtStart 0) one_start_hook
  = prepend [CallStart (UserCb 1); CallStart (UserCb 2)]
            (exec beh_hook 2 AtLoop (scheduleAtStart one_start_hook (UserCb 2))).
Proof.
  refine (start_hook_registers_hook beh_hook one_start_hook 0 1 (UserCb 2) 2
            eq_refl eq_refl eq_refl _).
  exists 2%nat. split; reflexivity.
Defined.

(** X16: a run that does not simulate the join process and whose end time
    [slotframeLength * exec_numSlotframesPerRun] is not after the clock
    fails on the assertion of [scheduleAtAsn] at once: no hook is called
    and the engine is unchanged. *)
Theorem run_without_slots (beh : Behaviour) (fuel : nat) (e : SimEngine) :
  secjoin_enabled (settings e) = false ->
  end_of_simulation e <= asn e ->
  run beh fuel e = mkTrace [] (Raised AssertionError) e.
Proof.
  intros J L. unfold run. rewrite J. cbn [negb].
  fold (end_of_simulation e). now rewrite scheduleAtAsn_fails.
Qed.

Lemma run_without_slots_witness :
  end_of_simulation no_slotframe <= asn no_slotframe
  /\ run idle 10 no_slotframe = mkTrace [] (Raised AssertionError) no_slotframe.
Proof.
  split; [discriminate|].
  apply (run_without_slots idle 10 no_slotframe); [reflexivity|discriminate].
Defined.

Lemma do_action_gate_idle (e : SimEngine) (act : Action) :
  gate_idle e -> gate_idle (res_engine (do_action e act)).
Proof.
  intros [P Sm].
  assert (Sched : forall e1 a cb t p x kw,
             gate_idle e1 -> gate_idle (res_engine (scheduleAtAsn e1 a cb t p x kw))).
  { intros e1 a cb t p x kw G.
    destruct (scheduleAtAsn e1 a cb t p x kw) as [e2|err e2] eqn:H; simpl.
    - apply scheduleAtAsn_ok in H. now destruct H as [_ ->].
    - apply scheduleAtAsn_raise in H. now destruct H as (_ & _ & ->). }
  destruct act as [a cb t p x kw|d cb t p x kw|t x|cb|cb|d|a|];
    cbn [do_action res_engine]; try (now split).
  - apply Sched. now split.
  - unfold scheduleIn. destruct (scheduleIn_asn e d); [now split|].
    apply Sched. now split.
  - unfold terminateSimulation. apply Sched. now split.
  - unfold pauseAtAsn. rewrite P. apply Sched. now split.
  - unfold play, _actionResumeSim. rewrite P. now split.
Qed.

Lemma do_actions_gate_idle (acts : list Action) :
  forall e, gate_idle e -> gate_idle (res_engine (do_actions e acts)).
Proof.
  induction acts as [|act acts IH]; intros e G; simpl; [exact G|].
  pose proof (do_action_gate_idle e act G) as K.
  destruct (do_action e act) as [e1|x e1]; simpl in *; auto.
Qed.

(** How a call leaves flag and semaphore. *)
Lemma invoke_gate (beh : Behaviour) (cb : Callback) (kw : Kwargs) (e : SimEngine) :
  gate_idle e ->
  match invoke beh cb kw e with
  | Returned e' => gate_idle e'
  | Failed _ e' => gate_idle e'
  | Acquire e' => simPaused e' = true /\ pauseSem e' = 0%nat
  end.
Proof.
  intros G. destruct cb as [| |id]; simpl.
  - destruct (no_kwargs kw); exact G.
  - destruct G as [P Sm]. destruct (no_kwargs kw); [|now split].
    rewrite P. now split.
  - pose proof (do_actions_gate_idle (beh id kw e) e G) as K.
    destruct (do_actions e (beh id kw e)); exact K.
Qed.

(** X17: from an engine that is not paused, with no permit in the
    semaphore, whatever the callbacks call (even [play]), an execution
    leaves the semaphore without a permit, and [simPaused] is set at its
    end exactly when the run stands at the wait of [_actionPauseSim]. *)
Theorem paused_only_while_waiting (beh : Behaviour) (fuel : nat) :
  forall (k : Loc) (e : SimEngine),
    at_gate k = false -> gate_idle e ->
    pauseSem (final (exec beh fuel k e)) = 0%nat
    /\ paused_iff_waiting (exec beh fuel k e).
Proof.
  assert (Gate : forall k e fuel',
             at_gate k = false ->
             simPaused e = true -> pauseSem e = 0%nat ->
             pauseSem (final (exec beh fuel' (AtGate k) e)) = 0%nat
             /\ paused_iff_waiting (exec beh fuel' (AtGate k) e)).
  { intros k e [|fuel'] _ P Sm; unfold paused_iff_waiting.
    - simpl. auto.
    - rewrite exec_unfold. cbn [step]. rewrite Sm. simpl. auto. }
  induction fuel as [|fuel IH]; intros k e NG G.
  - unfold paused_iff_waiting. simpl. destruct G as [P Sm].
    destruct k; try discriminate; auto.
  - rewrite exec_unfold.
    assert (Call : forall k' c cb kw e0,
               at_gate k' = false -> gate_idle e0 ->
               forall t,
                 t = match after_call k' (invoke beh cb kw e0) with
                     | Next k2 e2 => prepend c (exec beh fuel k2 e2)
                     | Stop x e2 => mkTrace c x e2
                     end ->
                 pauseSem (final t) = 0%nat /\ paused_iff_waiting t).
    { intros k' c cb kw e0 NG' G0 t ->.
      pose proof (invoke_gate beh cb kw e0 G0) as K.
      destruct (invoke beh cb kw e0) as [e1|x e1|e1]; cbn [after_call].
      - destruct (IH k' e1 NG' K) as [A B]. unfold prepend, paused_iff_waiting in *.
        cbn [final exit]. auto.
      - unfold paused_iff_waiting. cbn [final exit]. destruct K. auto.
      - destruct K as [P Sm]. destruct (Gate k' e1 fuel NG' P Sm) as [A B].
        unfold prepend, paused_iff_waiting in *. cbn [final exit]. auto. }
    assert (Go : forall k' e',
               at_gate k' = false -> gate_idle e' ->
               pauseSem (final (prepend [] (exec beh fuel k' e'))) = 0%nat
               /\ paused_iff_waiting (prepend [] (exec beh fuel k' e'))).
    { intros k' e' NG' G'. rewrite prepend_nil. now apply IH. }
    assert (Halt : forall x e',
               (forall k', x <> Waiting k') -> (forall k', x <> OutOfFuel k') ->
               gate_idle e' ->
               pauseSem (final (mkTrace [] x e')) = 0%nat
               /\ paused_iff_waiting (mkTrace [] x e')).
    { intros x e' H1 H2 [P Sm]. unfold paused_iff_waiting. cbn [final exit].
      split; [exact Sm|]. destruct x; auto.
      - now contradiction (H1 k0).
      - now contradiction (H2 k0). }
    destruct k as [i| | |k1|i]; try discriminate; cbn [step].
    + destruct (nth_error (startCb e) i) as [cb|]; cbn [fst snd].
      * now apply (Call (AtStart (S i)) [CallStart cb] cb [] e).
      * now apply Go.
    + destruct (goOn e); cbn [negb fst snd]; [|now apply Go].
      destruct (events e) as [|ev rest]; cbn [fst snd]; [now apply Go|].
      destruct (ev_tag ev) as [[o name]|]; cbn [fst snd];
        [|apply Halt; [discriminate|discriminate|exact G]].
      destruct (negb (is_pause_name name) && negb (ev_asn ev >=? asn e));
        cbn [fst snd]; [apply Halt; [discriminate|discriminate|exact G]|].
      apply Go; [reflexivity|exact G].
    + destruct (events e) as [|ev rest]; cbn [fst snd];
        [apply Halt; [discriminate|discriminate|exact G]|].
      destruct (negb (ev_asn ev =? asn e)); cbn [fst snd]; [now apply Go|].
      now apply (Call AtBatch [CallEvent (asn e) ev] (ev_cb ev) (ev_kwargs ev)
                      (set_events rest e)).
    + destruct (nth_error (endCb e) i) as [cb|]; cbn [fst snd].
      * now apply (Call (AtEnd (S i)) [CallEnd cb] cb [] e).
      * apply Halt; [discriminate|discriminate|exact G].
Qed.

Lemma paused_only_while_waiting_witness :
  gate_idle spec_example_paused
  /\ pauseSem (final (exec idle 30 (AtStart 0) spec_example_paused)) = 0%nat
  /\ paused_iff_waiting (exec idle 30 (AtStart 0) spec_example_paused).
Proof.
  assert (G : gate_idle spec_example_paused) by (split; reflexivity).
  exact (conj G (paused_only_while_waiting idle 30 (AtStart 0) spec_example_paused
                   eq_refl G)).
Defined.

(* ===================================================================== *)
(** * The order of scheduling *)
(* ===================================================================== *)

Lemma find_index_shift (a p : Z) (l : list Event) :
  forall i, find_index a p (S i) l = S (find_index a p i l).
Proof.
  induction l as [|ev l IH]; intros i; simpl; [reflexivity|].
  destruct (goes_before a p ev); [apply IH|reflexivity].
Qed.

Lemma numbered_insert_cons (n : nat) (ev : Event) (s : Entry) (q : list Entry) :
  numbered_insert n ev (s :: q)
  = if goes_before (ev_asn ev) (ev_priority ev) (snd s)
    then s :: numbered_insert n ev q
    else (n, ev) :: s :: q.
Proof.
  unfold numbered_insert. cbn [map find_index].
  destruct (goes_before (ev_asn ev) (ev_priority ev) (snd s)); [|reflexivity].
  rewrite find_index_shift. reflexivity.
Qed.

Lemma In_numbered_insert (n : nat) (ev : Event) (s : Entry) (q : list Entry) :
  In s (numbered_insert n ev q) <-> s = (n, ev) \/ In s q.
Proof.
  induction q as [|o q IH].
  - unfold numbered_insert. simpl. intuition.
  - rewrite numbered_insert_cons.
    destruct (goes_before (ev_asn ev) (ev_priority ev) (snd o)); simpl.
    + rewrite IH. intuition.
    + intuition.
Qed.

Lemma entry_lt_trans (a b c : Entry) : entry_lt a b -> entry_lt b c -> entry_lt a c.
Proof. unfold entry_lt. lia. Qed.

(** The new pair goes after every entry with the same time and priority:
    its number is the largest. *)
Lemma numbered_insert_sorted (n : nat) (ev : Event) (q : list Entry) :
  Forall (fun s => (fst s < n)%nat) q ->
  StronglySorted entry_lt q ->
  StronglySorted entry_lt (numbered_insert n ev q).
Proof.
  intros F Srt. induction Srt as [|o q Srt IH Fo].
  - unfold numbered_insert. simpl. repeat constructor.
  - rewrite numbered_insert_cons. inversion F as [|? ? Lo Fq]; subst.
    destruct (goes_before (ev_asn ev) (ev_priority ev) (snd o)) eqn:G.
    + apply goes_before_true in G. constructor; [now apply IH|].
      apply Forall_forall. intros s Is. apply In_numbered_insert in Is.
      destruct Is as [->|Is].
      * unfold entry_lt. cbn [fst snd]. lia.
      * rewrite Forall_forall in Fo. now apply Fo.
    + apply goes_before_false in G.
      assert (L : entry_lt (n, ev) o) by (unfold entry_lt; cbn [fst snd]; lia).
      constructor; [now constructor|]. constructor; [exact L|].
      eapply Forall_impl; [|exact Fo]. intros s. now apply entry_lt_trans.
Qed.

Lemma numbered_remove_sorted (c : Z) (t : option Tag) (x : bool) (q : list Entry) :
  StronglySorted entry_lt q -> StronglySorted entry_lt (numbered_remove c t x q).
Proof.
  unfold numbered_remove. induction 1 as [|o q Srt IH Fo]; simpl; [constructor|].
  destruct (negb (removable c t x (snd o))); [|exact IH].
  constructor; [exact IH|].
  apply Forall_forall. intros s Is. apply filter_In in Is.
  rewrite Forall_forall in Fo. apply Fo, Is.
Qed.

Lemma map_snd_numbered_remove (c : Z) (t : option Tag) (x : bool) (q : list Entry) :
  map snd (numbered_remove c t x q)
  = filter (fun ev => negb (removable c t x ev)) (map snd q).
Proof.
  unfold numbered_remove. induction q as [|o q IH]; simpl; [reflexivity|].
  destruct (negb (removable c t x (snd o))); simpl; now rewrite IH.
Qed.

Lemma map_snd_numbered_insert (n : nat) (ev : Event) (q : list Entry) :
  map snd (numbered_insert n ev q) = insert_sorted ev (map snd q).
Proof.
  induction q as [|o q IH].
  - reflexivity.
  - rewrite numbered_insert_cons. simpl.
    destruct (goes_before (ev_asn ev) (ev_priority ev) (snd o)); simpl;
      [now rewrite IH|reflexivity].
Qed.

(** What a call that returns does to the queue, by kind of call. *)
Lemma do_action_ok_shape (e e' : SimEngine) (act : Action) :
  do_action e act = Ok e' ->
  match act with
  | DoRemoveEvent t x =>
      events e' = filter (fun ev => negb (removable (asn e) t x ev)) (events e)
  | _ =>
      match scheduled_event e act with
      | Some ev =>
          events e'
          = insert_sorted ev
              (if truthy (ev_tag ev)
               then filter (fun y => negb (removable (asn e) (ev_tag ev)
                                                     (except_flag act) y))
                           (events e)
               else events e)
      | None => events e' = events e
      end
  end.
Proof.
  destruct act as [a cb t p x kw|d cb t p x kw|t x|cb|cb|d|a|];
    cbn [do_action scheduled_event except_flag]; intros H.
  - apply scheduleAtAsn_ok in H. now destruct H as [_ ->].
  - unfold scheduleIn in H. destruct (scheduleIn_asn e d) as [err|a]; [discriminate|].
    apply scheduleAtAsn_ok in H. now destruct H as [_ ->].
  - inversion H; subst. apply events_removeEvent.
  - now inversion H.
  - now inversion H.
  - unfold terminateSimulation in H. apply scheduleAtAsn_ok in H.
    now destruct H as [_ ->].
  - unfold pauseAtAsn in H. destruct (simPaused e); cbn [negb] in H.
    + now inversion H.
    + apply scheduleAtAsn_ok in H. now destruct H as [_ ->].
  - inversion H; subst. unfold play, _actionResumeSim. now destruct (simPaused e).
Qed.

Lemma do_action_raise_events (e e' : SimEngine) (act : Action) (err : Exn) :
  do_action e act = Raise err e' -> events e' = events e.
Proof.
  destruct act as [a cb t p x kw|d cb t p x kw|t x|cb|cb|d|a|];
    cbn [do_action]; intros H; try discriminate.
  - apply scheduleAtAsn_raise in H. now destruct H as (_ & _ & ->).
  - unfold scheduleIn in H. destruct (scheduleIn_asn e d) as [x0|a0].
    + now inversion H.
    + apply scheduleAtAsn_raise in H. now destruct H as (_ & _ & ->).
  - unfold terminateSimulation in H.
    apply scheduleAtAsn_raise in H. now destruct H as (_ & _ & ->).
  - unfold pauseAtAsn in H. destruct (simPaused e); cbn [negb] in H; [discriminate|].
    apply scheduleAtAsn_raise in H. now destruct H as (_ & _ & ->).
Qed.

(** The numbered queue is the queue of the code with numbers added. *)
Lemma numbered_call_events (n : nat) (e : SimEngine) (q : list Entry) (act : Action) :
  map snd q = events e ->
  map snd (numbered_call n e q act) = events (res_engine (do_action e act)).
Proof.
  intros E. unfold numbered_call.
  destruct (do_action e act) as [e'|err e'] eqn:D; cbn [res_engine].
  - pose proof (do_action_ok_shape e e' act D) as Sh.
    destruct act as [a cb t p x kw|d cb t p x kw|t x|cb|cb|d|a|];
      try (rewrite Sh, <- E; apply map_snd_numbered_remove);
      (destruct (scheduled_event e _) as [ev|]; [|now rewrite Sh]);
      rewrite Sh, map_snd_numbered_insert;
      (destruct (truthy (ev_tag ev)); [rewrite map_snd_numbered_remove|]);
      now rewrite E.
  - rewrite (do_action_raise_events e e' act err D). exact E.
Qed.

(** A call keeps the numbered queue sorted by the full key, with every
    number below the next call's. *)
Lemma numbered_call_sorted (n : nat) (e : SimEngine) (q : list Entry) (act : Action) :
  StronglySorted entry_lt q -> Forall (fun s => (fst s < n)%nat) q ->
  StronglySorted entry_lt (numbered_call n e q act)
  /\ Forall (fun s => (fst s < S n)%nat) (numbered_call n e q act)
  /\ Forall (fun s => In s q \/ (fst s = n /\ scheduled_event e act = Some (snd s)))
            (numbered_call n e q act).
Proof.
  intros Srt F.
  assert (Keep : StronglySorted entry_lt q
                 /\ Forall (fun s => (fst s < S n)%nat) q
                 /\ Forall (fun s => In s q
                                    \/ (fst s = n /\ scheduled_event e act = Some (snd s))) q).
  { split; [exact Srt|split].
    - eapply Forall_impl; [|exact F]. simpl. intros; lia.
    - apply Forall_forall. auto. }
  assert (Rem : forall c t x,
             StronglySorted entry_lt (numbered_remove c t x q)
             /\ Forall (fun s => (fst s < n)%nat) (numbered_remove c t x q)
             /\ Forall (fun s => In s q) (numbered_remove c t x q)).
  { intros c t x. split; [now apply numbered_remove_sorted|].
    unfold numbered_remove. split; apply Forall_forall; intros s Is;
      apply filter_In in Is; [|tauto].
    rewrite Forall_forall in F. apply F. tauto. }
  assert (Ins : forall ev q0,
             scheduled_event e act = Some ev ->
             StronglySorted entry_lt q0 ->
             Forall (fun s => (fst s < n)%nat) q0 ->
             Forall (fun s => In s q) q0 ->
             StronglySorted entry_lt (numbered_insert n ev q0)
             /\ Forall (fun s => (fst s < S n)%nat) (numbered_insert n ev q0)
             /\ Forall (fun s => In s q
                                \/ (fst s = n /\ scheduled_event e act = Some (snd s)))
                       (numbered_insert n ev q0)).
  { intros ev q0 Sc S0 F0 I0. split; [now apply numbered_insert_sorted|].
    split; apply Forall_forall; intros s Is; apply In_numbered_insert in Is;
      destruct Is as [->|Is].
    - simpl. lia.
    - rewrite Forall_forall in F0. specialize (F0 s Is). lia.
    - right. auto.
    - left. rewrite Forall_forall in I0. auto. }
  assert (Sched : forall ev,
             scheduled_event e act = Some ev ->
             let q0 := if truthy (ev_tag ev)
                       then numbered_remove (asn e) (ev_tag ev) (except_flag act) q
                       else q in
             StronglySorted entry_lt (numbered_insert n ev q0)
             /\ Forall (fun s => (fst s < S n)%nat) (numbered_insert n ev q0)
             /\ Forall (fun s => In s q
                                \/ (fst s = n /\ scheduled_event e act = Some (snd s)))
                       (numbered_insert n ev q0)).
  { intros ev Sc q0. unfold q0. destruct (truthy (ev_tag ev)).
    - destruct (Rem (asn e) (ev_tag ev) (except_flag act)) as (A & B & C).
      now apply Ins.
    - apply Ins; auto. apply Forall_forall. auto. }
  unfold numbered_call. destruct (do_action e act) as [e'|err e']; [|exact Keep].
  destruct act as [a cb t p x kw|d cb t p x kw|t x|cb|cb|d|a|];
    try (destruct (scheduled_event e _) as [ev|] eqn:Sc;
         [now apply Sched|exact Keep]).
  destruct (Rem (asn e) t x) as (A & B & C). split; [exact A|split].
  - eapply Forall_impl; [|exact B]. simpl. intros; lia.
  - eapply Forall_impl; [|exact C]. simpl. auto.
Qed.

Lemma StronglySorted_entries_before (l1 r : list Entry) (s : Entry) :
  StronglySorted entry_lt (l1 ++ s :: r) -> Forall (fun z => entry_lt z s) l1.
Proof.
  induction l1 as [|z l1 IH]; simpl; intros Srt; [constructor|].
  inversion Srt as [|? ? S' F]; subst. constructor; [|now apply IH].
  rewrite Forall_forall in F. apply F. apply in_or_app. right. simpl; auto.
Qed.

Lemma sorted_entries_order (q : list Entry) (s1 s2 : Entry) :
  StronglySorted entry_lt q -> In s1 q -> In s2 q -> entry_lt s1 s2 ->
  exists l1 l2 l3, q = l1 ++ s1 :: l2 ++ s2 :: l3.
Proof.
  intros Srt I1 I2 K.
  destruct (in_split s1 q I1) as (l1 & r & ->).
  pose proof (StronglySorted_entries_before _ _ _ Srt) as B.
  apply in_app_or in I2. simpl in I2. destruct I2 as [I2|[<-|I2]].
  - exfalso. rewrite Forall_forall in B. specialize (B s2 I2).
    unfold entry_lt in *. lia.
  - exfalso. unfold entry_lt in K. lia.
  - destruct (in_split s2 r I2) as (l2 & l3 & ->). now exists l1, l2, l3.
Qed.

(** The invariant along a sequence of calls. *)
Lemma numbered_calls_invariant (acts : list Action) :
  forall (n : nat) (e : SimEngine) (q : list Entry),
    map snd q = events e ->
    StronglySorted entry_lt q ->
    Forall (fun s => (fst s < n)%nat) q ->
    map snd (numbered_calls n e q acts) = events (apply_calls e acts)
    /\ StronglySorted entry_lt (numbered_calls n e q acts)
    /\ Forall (fun s =>
                 In s q
                 \/ exists i act,
                     fst s = (n + i)%nat /\ nth_error acts i = Some act
                     /\ scheduled_event (apply_calls e (firstn i acts)) act
                        = Some (snd s))
              (numbered_calls n e q acts).
Proof.
  induction acts as [|act acts IH]; intros n e q E Srt F.
  - simpl. split; [exact E|split; [exact Srt|]]. apply Forall_forall. auto.
  - cbn [numbered_calls]. unfold apply_calls. cbn [fold_left].
    fold (apply_calls (res_engine (do_action e act)) acts).
    destruct (numbered_call_sorted n e q act Srt F) as (S1 & F1 & P1).
    pose proof (numbered_call_events n e q act E) as E1.
    destruct (IH (S n) _ _ E1 S1 F1) as (E2 & S2 & P2).
    split; [exact E2|split; [exact S2|]].
    apply Forall_forall. intros s Is.
    rewrite Forall_forall in P2, P1.
    destruct (P2 s Is) as [Iq|(i & a' & Fs & Nth & Sc)].
    + destruct (P1 s Iq) as [I0|[Fs Sc]]; [now left|].
      right. exists 0%nat, act. split; [lia|]. split; [reflexivity|exact Sc].
    + right. exists (S i), a'. split; [lia|]. split; [exact Nth|exact Sc].
Qed.

(** C2: after any sequence of calls of the public methods (scheduling and
    removal among them, the same event scheduled again included), made on
    a queue whose entries are numbered and sorted by time, priority and
    number (an empty one, say), the queue of the code is the numbered
    queue without its numbers; the numbered queue is sorted by time, then
    priority, then number; each new entry carries the number of the call
    that scheduled it; so of two pending events with equal time and
    priority the one scheduled first stands first, and the run loop, which
    takes the head of the queue, dispatches in that order. *)
Theorem queue_sorted_by_insertion_order (e : SimEngine) (q : list Entry)
        (n : nat) (acts : list Action) :
  map snd q = events e ->
  StronglySorted entry_lt q ->
  Forall (fun s => (fst s < n)%nat) q ->
  let e' := apply_calls e acts in
  let q' := numbered_calls n e q acts in
  map snd q' = events e'
  /\ StronglySorted entry_lt q'
  /\ Forall (fun s =>
               In s q
               \/ exists i act,
                   fst s = (n + i)%nat /\ nth_error acts i = Some act
                   /\ scheduled_event (apply_calls e (firstn i acts)) act
                      = Some (snd s))
            q'
  /\ (forall s1 s2,
         In s1 q' -> In s2 q' ->
         ev_asn (snd s1) = ev_asn (snd s2) ->
         ev_priority (snd s1) = ev_priority (snd s2) ->
         (fst s1 < fst s2)%nat ->
         exists l1 l2 l3, q' = l1 ++ s1 :: l2 ++ s2 :: l3)
  /\ (forall fuel k,
         exists m,
           dispatched (calls (exec idle fuel k e'))
           = firstn m (in_queue_order (map snd q'))).
Proof.
  intros E Srt F e' q'.
  destruct (numbered_calls_invariant acts n e q E Srt F) as (E' & S' & P').
  split; [exact E'|split; [exact S'|split; [exact P'|split]]].
  - intros s1 s2 I1 I2 Ta Pr Lt.
    apply (sorted_entries_order q' s1 s2 S' I1 I2).
    unfold entry_lt. right. split; [exact Ta|]. right. split; [exact Pr|exact Lt].
  - intros fuel k. fold q' in E'. rewrite E'. apply exec_idle_queue_order.
Qed.

Lemma queue_sorted_by_insertion_order_witness :
  map snd (@nil Entry) = events fresh
  /\ numbered_calls 0 fresh [] resched_calls
     = [ (1%nat, mkEvent 5 0 (UserCb 2) (mote_tag 2 "app") []);
         (2%nat, mkEvent 5 0 (UserCb 1) (mote_tag 1 "app") []);
         (3%nat, mkEvent 5 0 (UserCb 3) None []);
         (4%nat, mkEvent 5 0 (UserCb 3) None []) ]
  /\ map snd (numbered_calls 0 fresh [] resched_calls)
     = events (apply_calls fresh resched_calls)
  /\ StronglySorted entry_lt (numbered_calls 0 fresh [] resched_calls).
Proof.
  split; [reflexivity|split; [reflexivity|]].
  pose proof (queue_sorted_by_insertion_order fresh [] 0 resched_calls
                eq_refl (SSorted_nil _) (Forall_nil _)) as H.
  exact (conj (proj1 H) (proj1 (proj2 H))).
Defined.
